(** * Non-maximum suppression on the CPU: [nms_cpu_kernel]

    A shallow embedding of [maskrcnn_benchmark/csrc/cpu/nms_cpu.cpp] and the
    properties of the greedy suppression loop.

    The kernel is a C++ template over [scalar_t]; here it is a function over
    any type carrying the arithmetic the kernel uses (class [Scalar]), with
    the two IEEE instances that [nms_cpu] selects through
    [AT_DISPATCH_FLOATING_TYPES] ([binary32_ops] for [float], [binary64_ops]
    for [double]), built on the Standard Library's executable specification
    of floating-point numbers.

    Conventions: the [int64_t] positions and box indices are [nat] (a tensor
    has fewer than 2^63 elements); the [uint8_t] flags are [Z]; a tensor is
    its type tag and the list of its elements, a row of [dets] being a
    record of four scalars; a read or write through a raw pointer outside
    its buffer is the outcome [Undefined]; ATen's [sort] is a parameter of
    the kernel, and what a theorem needs of it is a hypothesis on the call at
    hand. *)

From Stdlib Require Import ZArith QArith Lqa String Floats.SpecFloat.
From stdpp Require Import base decidable option list sets gmap sorting.

Local Open Scope Z_scope.
Local Open Scope nat_scope.
Set Warnings "-clear-no-such-hyp".

(** ** The scalar type of the template *)

(** The operations of [scalar_t] that the kernel relies on. No law is
    assumed: IEEE arithmetic rounds, overflows and has NaN. *)
Class Scalar (F : Type) := {
  F0 : F;                       (* static_cast<scalar_t>(0) *)
  F1 : F;                       (* the literal 1, converted to scalar_t *)
  Fadd : F → F → F;
  Fsub : F → F → F;
  Fmul : F → F → F;
  Fdiv : F → F → F;
  Flt : F → F → bool;           (* a < b *)
  Fge : F → F → bool;           (* a >= b *)
  Ffloat : spec_float → F;      (* a float, converted to scalar_t *)
}.

(** [std::max(a, b)] is [(a < b) ? b : a] and [std::min(a, b)] is
    [(b < a) ? b : a]. *)
Definition std_max `{Scalar F} (a b : F) : F := if Flt a b then b else a.
Definition std_min `{Scalar F} (a b : F) : F := if Flt b a then b else a.

(** An IEEE 754 binary format with [prec] bits of precision and exponents
    below [emax]: every operation rounds its exact result to nearest, ties to
    even (no excess precision, no fused multiply-add). A value is a
    [spec_float] with the mantissa and exponent normalised for the format;
    [of_float] converts a [float] to the format. *)
Definition ieee_ops (prec emax : Z) (of_float : spec_float → spec_float)
  : Scalar spec_float := {|
  F0 := S754_zero false;
  F1 := SFone prec emax;
  Fadd := SFadd prec emax;
  Fsub := SFsub prec emax;
  Fmul := SFmul prec emax;
  Fdiv := SFdiv prec emax;
  Flt := SFltb;
  Fge := λ a b, SFleb b a;
  Ffloat := of_float;
|}.

(** [float] and [double]. The conversion of a [float] to [double] is exact
    and normalises the mantissa again. *)
Definition binary32_ops : Scalar spec_float := ieee_ops 24 128 (λ x, x).
Definition binary64_ops : Scalar spec_float :=
  ieee_ops 53 1024 (λ x, SFldexp 53 1024 x 0).

(** The same operations without rounding or overflow, on the rationals: not
    a type the kernel is instantiated at, but the arithmetic the
    specification reasons in. A division by 0 gives 0; a [float] that is not
    a finite number is taken as 0. *)
Definition SF2Q (x : spec_float) : Q :=
  match x with
  | S754_finite s m e =>
      let v := (inject_Z (Zpos m) * Qpower 2 e)%Q in
      if s then Qopp v else v
  | _ => 0%Q
  end.

Definition exact_ops : Scalar Q := {|
  F0 := 0%Q;
  F1 := 1%Q;
  Fadd := Qplus;
  Fsub := Qminus;
  Fmul := Qmult;
  Fdiv := Qdiv;
  Flt := λ a b, negb (Qle_bool b a);
  Fge := λ a b, Qle_bool b a;
  Ffloat := SF2Q;
|}.

(** ** Outcomes of a call *)

(** A call returns, throws the error of a failed [AT_ASSERTM], or reads
    or writes outside a buffer, which C++ leaves undefined. *)
Inductive outcome (A : Type) : Type :=
  | Ok (a : A)
  | Throw (msg : string)
  | Undefined.
Arguments Ok {A} a.
Arguments Throw {A} msg.
Arguments Undefined {A}.

Global Instance outcome_ret : MRet outcome := λ A a, Ok a.
Global Instance outcome_bind : MBind outcome := λ A B f m,
  match m with
  | Ok a => f a
  | Throw msg => Throw msg
  | Undefined => Undefined
  end.

Definition AT_ASSERTM (cond : bool) (msg : string) : outcome unit :=
  if cond then Ok () else Throw msg.

(** [p[i]] on the raw pointer of a buffer of [length l] elements. *)
Definition read {A} (l : list A) (i : nat) : outcome A :=
  match l !! i with
  | Some a => Ok a
  | None => Undefined
  end.

(** [p[i] = v]. *)
Definition write {A} (l : list A) (i : nat) (v : A) : outcome (list A) :=
  if decide (i < length l) then Ok (<[i := v]> l) else Undefined.

(** [for (k = lo; k < hi; k++) body], the body never assigning [k];
    [continue] ends the body. *)
Fixpoint for_loop {St} (count k : nat) (body : nat → St → outcome St) (s : St)
  : outcome St :=
  match count with
  | 0 => Ok s
  | S count' => s' ← body k s; for_loop count' (S k) body s'
  end.

Definition for_range {St} (lo hi : nat) (body : nat → St → outcome St) (s : St)
  : outcome St :=
  for_loop (hi - lo) lo body s.

(** ** Tensors *)

Inductive ScalarType := Byte | Char | Short | Int | Long | Half | Float | Double.

Global Instance ScalarType_eq_dec : EqDecision ScalarType.
Proof. solve_decision. Defined.

(** What [t.type()] exposes: the backend and the element type. *)
Record TensorType := { is_cuda : bool; scalar_type : ScalarType }.

Global Instance TensorType_eq_dec : EqDecision TensorType.
Proof. solve_decision. Defined.

Record Tensor (A : Type) := { type : TensorType; data : list A }.
Arguments type {A} t.
Arguments data {A} t.

(** A row of [dets]: the tensor has shape [N, 4]. *)
Record Box (F : Type) := { bx1 : F; by1 : F; bx2 : F; by2 : F }.
Arguments bx1 {F} b.
Arguments by1 {F} b.
Arguments bx2 {F} b.
Arguments by2 {F} b.
Arguments Build_Box {F} bx1 by1 bx2 by2.

(** [dets.numel()], for [dets] of shape [N, 4]. *)
Definition numel {F} (dets : Tensor (Box F)) : nat := 4 * length (data dets).

(** [at::nonzero(t).squeeze(1)]: the positions of the non-zero elements, in
    increasing order. *)
Fixpoint nonzero_from (k : nat) (t : list bool) : list nat :=
  match t with
  | [] => []
  | b :: t' => if b then k :: nonzero_from (S k) t' else nonzero_from (S k) t'
  end.
Definition nonzero (t : list bool) : list nat := nonzero_from 0 t.

(** ** The kernel *)

Section nms_cpu_kernel.
Context {scalar_t : Type} `{Scalar scalar_t}.

(** [std::get<1>(scores.sort(0, /* descending=*/true))]: ATen's sort, of
    which the kernel uses the index tensor only. *)
Variable sort_descending : list scalar_t → list nat.

(** Lines 59-82: one iteration of the inner loop. *)
Definition inner_body (order : list nat) (x1 y1 x2 y2 areas : list scalar_t)
    (threshold : spec_float) (ix1 iy1 ix2 iy2 iarea : scalar_t)
    (_j : nat) (suppressed : list Z) : outcome (list Z) :=
  j ← read order _j;
  sj ← read suppressed j;
  if (sj =? 1)%Z then Ok suppressed else
  x1j ← read x1 j;
  let xx1 := std_max ix1 x1j in
  y1j ← read y1 j;
  let yy1 := std_max iy1 y1j in
  x2j ← read x2 j;
  let xx2 := std_min ix2 x2j in
  y2j ← read y2 j;
  let yy2 := std_min iy2 y2j in
  let w := std_max F0 (Fadd (Fsub xx2 xx1) F1) in
  let h := std_max F0 (Fadd (Fsub yy2 yy1) F1) in
  let inter := Fmul w h in
  areaj ← read areas j;
  let ovr := Fdiv inter (Fsub (Fadd iarea areaj) inter) in
  if Fge ovr (Ffloat threshold) then write suppressed j 1%Z
  else Ok suppressed.

(** Lines 44-83: one iteration of the outer loop. *)
Definition outer_body (ndets : nat) (order : list nat)
    (x1 y1 x2 y2 areas : list scalar_t) (threshold : spec_float)
    (_i : nat) (suppressed : list Z) : outcome (list Z) :=
  i ← read order _i;
  si ← read suppressed i;
  if (si =? 1)%Z then Ok suppressed else
  ix1 ← read x1 i;
  iy1 ← read y1 i;
  ix2 ← read x2 i;
  iy2 ← read y2 i;
  iarea ← read areas i;
  for_range (_i + 1) ndets
    (inner_body order x1 y1 x2 y2 areas threshold ix1 iy1 ix2 iy2 iarea)
    suppressed.

(** Line 25: [(x2_t - x1_t + 1) * (y2_t - y1_t + 1)], elementwise. *)
Definition areas_of (x1 y1 x2 y2 : list scalar_t) : list scalar_t :=
  zip_with Fmul
    ((λ d, Fadd d F1) <$> zip_with Fsub x2 x1)
    ((λ d, Fadd d F1) <$> zip_with Fsub y2 y1).

(** Lines 19-83: the flags when the double loop finishes. *)
Definition suppression_loop (dets : list (Box scalar_t))
    (scores : list scalar_t) (threshold : spec_float) : outcome (list Z) :=
  let x1_t := bx1 <$> dets in
  let y1_t := by1 <$> dets in
  let x2_t := bx2 <$> dets in
  let y2_t := by2 <$> dets in
  let areas_t := areas_of x1_t y1_t x2_t y2_t in
  let order_t := sort_descending scores in
  let ndets := length dets in
  let suppressed_t := replicate ndets 0%Z in
  for_range 0 ndets
    (outer_body ndets order_t x1_t y1_t x2_t y2_t areas_t threshold)
    suppressed_t.

(** Lines 6-87. *)
Definition nms_cpu_kernel (dets : Tensor (Box scalar_t))
    (scores : Tensor scalar_t) (threshold : spec_float)
    : outcome (list nat) :=
  AT_ASSERTM (negb (is_cuda (type dets))) "dets must be a CPU tensor";;
  AT_ASSERTM (negb (is_cuda (type scores))) "scores must be a CPU tensor";;
  AT_ASSERTM (bool_decide (type dets = type scores))
    "dets should have the same type as scores";;
  if numel dets =? 0 then Ok [] else
  suppressed ← suppression_loop (data dets) (data scores) threshold;
  Ok (nonzero ((λ s, (s =? 0)%Z) <$> suppressed)).

End nms_cpu_kernel.

(** ** The algorithm as the specification words it *)

(** The greedy marking of section 4.1, step 4, over any pairwise test: the
    suppressed flags are the set of flagged indices. *)
Section greedy.
Variable test : nat → nat → bool.

(** A later position: skip a flagged [j], else flag it when the test of the
    reference box [i] against [j] succeeds. *)
Definition mark (i : nat) (flagged : gset nat) (j : nat) : gset nat :=
  if decide (j ∈ flagged) then flagged
  else if test i j then {[j]} ∪ flagged else flagged.

(** The positions of [order] in sequence: skip a flagged [i], else take it
    as the reference box for every later position. *)
Fixpoint greedy (order : list nat) (flagged : gset nat) : gset nat :=
  match order with
  | [] => flagged
  | i :: later =>
      if decide (i ∈ flagged) then greedy later flagged
      else greedy later (foldl (mark i) flagged later)
  end.

End greedy.

Section specification.
Context {F : Type} `{Scalar F}.

(** Section 3, Area: [(x2 - x1 + 1) * (y2 - y1 + 1)]. *)
Definition area (b : Box F) : F :=
  Fmul (Fadd (Fsub (bx2 b) (bx1 b)) F1) (Fadd (Fsub (by2 b) (by1 b)) F1).

(** Section 4.1, step 4: the intersection rectangle, [w], [h], [inter]. *)
Definition inter (bi bj : Box F) : F :=
  let xx1 := std_max (bx1 bi) (bx1 bj) in
  let yy1 := std_max (by1 bi) (by1 bj) in
  let xx2 := std_min (bx2 bi) (bx2 bj) in
  let yy2 := std_min (by2 bi) (by2 bj) in
  let w := std_max F0 (Fadd (Fsub xx2 xx1) F1) in
  let h := std_max F0 (Fadd (Fsub yy2 yy1) F1) in
  Fmul w h.

(** [ovr = inter / (area_i + area_j - inter)]. *)
Definition ovr (bi bj : Box F) : F :=
  Fdiv (inter bi bj) (Fsub (Fadd (area bi) (area bj)) (inter bi bj)).

(** [ovr >= threshold]: the reference box [bi] suppresses [bj]. *)
Definition suppresses (threshold : F) (bi bj : Box F) : bool :=
  Fge (ovr bi bj) threshold.

Definition overlap_test (boxes : list (Box F)) (threshold : F) (i j : nat)
  : bool :=
  match boxes !! i, boxes !! j with
  | Some bi, Some bj => suppresses threshold bi bj
  | _, _ => false
  end.

(** Section 4.1, steps 1-5, with section 4.2: the indices never flagged, in
    ascending order. *)
Definition spec_suppress (order : list nat) (boxes : list (Box F))
    (threshold : F) : list nat :=
  filter (λ i, i ∉ greedy (overlap_test boxes threshold) order ∅)
    (seq 0 (length boxes)).

(** Descending scores: the score at an earlier position is never less than
    the score at a later one. *)
Fixpoint ranked_descending (ss : list F) : bool :=
  match ss with
  | [] => true
  | s :: rest => forallb (λ s', negb (Flt s s')) rest && ranked_descending rest
  end.

Definition is_descending (scores : list F) (order : list nat) : Prop :=
  ranked_descending (omap (λ i, scores !! i) order) = true.

End specification.

(** A call the kernel is written for: CPU tensors of one type, one score
    per box, and a [sort] that returns a permutation of the indices. *)
Record well_formed_call {F} (sort_descending : list F → list nat)
    (dets : Tensor (Box F)) (scores : Tensor F) : Prop := {
  wf_dets_cpu : is_cuda (type dets) = false;
  wf_scores_cpu : is_cuda (type scores) = false;
  wf_same_type : type dets = type scores;
  wf_length : length (data dets) = length (data scores);
  wf_order : sort_descending (data scores) ≡ₚ seq 0 (length (data scores));
}.

(** The flags of the kernel, for a set of flagged indices. *)
Definition flags (n : nat) (flagged : gset nat) : list Z :=
  (λ i, if decide (i ∈ flagged) then 1%Z else 0%Z) <$> seq 0 n.

(** ** A sort and concrete inputs *)

(** A stable insertion sort on indices, by descending score: one function
    that meets what the kernel expects of [sort]. *)
Section a_sort.
Context {F : Type} `{Scalar F}.

Fixpoint insert_desc (scores : list F) (i : nat) (l : list nat) : list nat :=
  match l with
  | [] => [i]
  | k :: l' =>
      match scores !! k, scores !! i with
      | Some sk, Some si =>
          if Flt sk si then i :: k :: l' else k :: insert_desc scores i l'
      | _, _ => k :: insert_desc scores i l'
      end
  end.

Definition insertion_argsort (scores : list F) : list nat :=
  foldl (λ l i, insert_desc scores i l) [] (seq 0 (length scores)).

End a_sort.

Definition cpu_float : TensorType := {| is_cuda := false; scalar_type := Float |}.
Definition cpu_double : TensorType := {| is_cuda := false; scalar_type := Double |}.

(** The [float] and the [double] of an integer and of a quotient of two. *)
Definition Z2F32 (z : Z) : spec_float := binary_normalize 24 128 z 0 false.
Definition Z2F64 (z : Z) : spec_float := binary_normalize 53 1024 z 0 false.
Definition Q2F32 (a b : Z) : spec_float := SFdiv 24 128 (Z2F32 a) (Z2F32 b).
Definition Q2F64 (a b : Z) : spec_float := SFdiv 53 1024 (Z2F64 a) (Z2F64 b).

Definition box_of (conv : Z → spec_float) (x1 y1 x2 y2 : Z) : Box spec_float :=
  Build_Box (conv x1) (conv y1) (conv x2) (conv y2).

(** The instantiations [nms_cpu_kernel<float>] and [nms_cpu_kernel<double>]
    that [nms_cpu] dispatches to. *)
Definition nms_cpu_kernel_float := @nms_cpu_kernel spec_float binary32_ops.
Definition nms_cpu_kernel_double := @nms_cpu_kernel spec_float binary64_ops.
Definition sort_float := @insertion_argsort spec_float binary32_ops.
Definition sort_double := @insertion_argsort spec_float binary64_ops.

Definition float_tensor {A} (l : list A) : Tensor A :=
  {| type := cpu_float; data := l |}.
Definition double_tensor {A} (l : list A) : Tensor A :=
  {| type := cpu_double; data := l |}.

(** The [float] 0.5, 0.375 and 0. *)
Definition half : spec_float := Q2F32 1 2.
Definition three_eighths : spec_float := Q2F32 3 8.
Definition zero : spec_float := S754_zero false.

(** The scenario of section 8: A, B and C with scores 0.9, 0.8 and 0.95. *)
Definition scenario_boxes (conv : Z → spec_float) : list (Box spec_float) :=
  [box_of conv 0 0 10 10; box_of conv 1 1 11 11; box_of conv 50 50 60 60].
Definition scenario_scores (quot : Z → Z → spec_float) : list spec_float :=
  [quot 9 10; quot 8 10; quot 95 100]%Z.

(** The columns and areas of the scenario in [float], the inner loop with
    A as the reference box, and the outer loop, on the order C, A, B. *)
Definition scenario_x1 : list spec_float := bx1 <$> scenario_boxes Z2F32.
Definition scenario_y1 : list spec_float := by1 <$> scenario_boxes Z2F32.
Definition scenario_x2 : list spec_float := bx2 <$> scenario_boxes Z2F32.
Definition scenario_y2 : list spec_float := by2 <$> scenario_boxes Z2F32.
Definition scenario_areas : list spec_float :=
  @area spec_float binary32_ops <$> scenario_boxes Z2F32.
Definition scenario_inner : nat → list Z → outcome (list Z) :=
  @inner_body spec_float binary32_ops [2; 0; 1] scenario_x1 scenario_y1
    scenario_x2 scenario_y2 scenario_areas half
    (Z2F32 0) (Z2F32 0) (Z2F32 10) (Z2F32 10) (Z2F32 121).
Definition scenario_outer : nat → list Z → outcome (list Z) :=
  @outer_body spec_float binary32_ops 3 [2; 0; 1] scenario_x1 scenario_y1
    scenario_x2 scenario_y2 scenario_areas half.

(** Four boxes: a strip over a square and the two halves of the square. *)
Definition strip_boxes : list (Box spec_float) :=
  [box_of Z2F32 0 0 9 3; box_of Z2F32 0 0 9 9;
   box_of Z2F32 0 0 4 9; box_of Z2F32 5 0 9 9].
Definition strip_scores : list spec_float :=
  [Z2F32 4; Z2F32 3; Z2F32 2; Z2F32 1].


(** ** The claims the code does not meet, as they are stated *)

(** A call with a different number of boxes and scores throws. *)
Definition rejects_length_mismatch {F} `{Scalar F}
    (sort_descending : list F → list nat) (dets : Tensor (Box F))
    (scores : Tensor F) (threshold : spec_float) : Prop :=
  length (data dets) ≠ length (data scores) →
  ∃ msg, nms_cpu_kernel sort_descending dets scores threshold = Throw msg.

(** The number of kept indices does not decrease from [t1] to [t2]. *)
Definition kept_size_monotone {F} `{Scalar F}
    (sort_descending : list F → list nat) (dets : Tensor (Box F))
    (scores : Tensor F) (t1 t2 : spec_float) : Prop :=
  ∀ keep1 keep2,
    nms_cpu_kernel sort_descending dets scores t1 = Ok keep1 →
    nms_cpu_kernel sort_descending dets scores t2 = Ok keep2 →
    length keep1 ≤ length keep2.

(** [x1 <= x2] and [y1 <= y2]. *)
Definition box_well_formed {F} `{Scalar F} (b : Box F) : Prop :=
  Fge (bx2 b) (bx1 b) = true ∧ Fge (by2 b) (by1 b) = true.

(** With well-formed boxes and threshold 0 exactly one index is kept. *)
Definition one_survivor_at_zero {F} `{Scalar F}
    (sort_descending : list F → list nat) (dets : Tensor (Box F))
    (scores : Tensor F) : Prop :=
  data dets ≠ [] → Forall box_well_formed (data dets) →
  ∃ top, nms_cpu_kernel sort_descending dets scores zero = Ok [top].

(** The kept boxes, or their scores: [t.index_select(0, keep)]. *)
Definition index_select {A} (t : Tensor A) (keep : list nat) : Tensor A :=
  {| type := type t; data := omap (λ i, data t !! i) keep |}.

(** NaN, and boxes without one. *)
Definition is_nan (x : spec_float) : bool :=
  match x with
  | S754_nan => true
  | _ => false
  end.

Definition box_without_nan (b : Box spec_float) : Prop :=
  is_nan (bx1 b) = false ∧ is_nan (by1 b) = false ∧
  is_nan (bx2 b) = false ∧ is_nan (by2 b) = false.

(** The same number: equal, or two zeros of either sign. *)
Definition same_value (a b : spec_float) : Prop :=
  a = b ∨ ∃ s s', a = S754_zero s ∧ b = S754_zero s'.

(** No assertion fails. *)
Definition never_throws {A} (m : outcome A) : Prop := ∀ msg, m ≠ Throw msg.

(** The flags never go back from 1, and the buffer keeps its size. *)
Definition flags_le (s s' : list Z) : Prop :=
  length s' = length s ∧ ∀ i, s !! i = Some 1%Z → s' !! i = Some 1%Z.

(** ** The entry point *)

(** The error of [AT_DISPATCH_FLOATING_TYPES] on a scalar type that is not
    a floating one. ATen's text names the operation and the tensor type;
    here it names the operation. *)
Definition not_implemented (name : string) : string :=
  String.append name " not implemented for this type".

(** [AT_DISPATCH_FLOATING_TYPES(TYPE, NAME, ...)]: ATen's switch on the
    scalar type of [TYPE]. The body runs with [scalar_t] bound to [double]
    or to [float]; every other scalar type is an error. *)
Definition AT_DISPATCH_FLOATING_TYPES {A} (the_type : TensorType)
    (name : string) (body : Scalar spec_float → outcome A) : outcome A :=
  match scalar_type the_type with
  | Double => body binary64_ops
  | Float => body binary32_ops
  | _ => Throw (not_implemented name)
  end.

(** Lines 91-106: the kernel at the scalar type of [dets]. An error of
    the kernel is the error of [nms_cpu]. *)
Definition nms_cpu (sort_descending : list spec_float → list nat)
    (dets : Tensor (Box spec_float)) (scores : Tensor spec_float)
    (threshold : spec_float) : outcome (list nat) :=
  AT_DISPATCH_FLOATING_TYPES (type dets) "nms" (λ scalar_t,
    @nms_cpu_kernel spec_float scalar_t sort_descending dets scores threshold).

Definition is_floating (t : ScalarType) : bool :=
  match t with
  | Float | Double => true
  | _ => false
  end.

(** The arithmetic of a floating scalar type. *)
Definition arithmetic_of (t : ScalarType) : Scalar spec_float :=
  match t with
  | Double => binary64_ops
  | _ => binary32_ops
  end.

(** ** Bounds, NaN and the intersection rectangle *)

(** The loops read [order[0]], ..., [order[n-1]] and index the flags and the
    columns, [n] long, with what they read. *)
Definition order_in_bounds (order : list nat) (n : nat) : Prop :=
  ∀ k, k < n → ∃ i, order !! k = Some i ∧ i < n.

Definition box_with_nan (b : Box spec_float) : Prop :=
  is_nan (bx1 b) = true ∨ is_nan (by1 b) = true ∨
  is_nan (bx2 b) = true ∨ is_nan (by2 b) = true.


Section overlap.
Context {F : Type} `{Scalar F}.

(** Lines 67-73: [xx2 - xx1 + 1] and [yy2 - yy1 + 1], before [std::max]
    with 0. *)
Definition overlap_width (bi bj : Box F) : F :=
  Fadd (Fsub (std_min (bx2 bi) (bx2 bj)) (std_max (bx1 bi) (bx1 bj))) F1.
Definition overlap_height (bi bj : Box F) : F :=
  Fadd (Fsub (std_min (by2 bi) (by2 bj)) (std_max (by1 bi) (by1 bj))) F1.

End overlap.

(** The scenario of section 8 with a NaN in B, and with a fourth box
    D=(100,100,110,110) of score 0.1. *)
Definition scenario_with_nan : list (Box spec_float) :=
  [box_of Z2F32 0 0 10 10;
   Build_Box S754_nan (Z2F32 1) (Z2F32 11) (Z2F32 11);
   box_of Z2F32 50 50 60 60].
Definition scenario_with_D : list (Box spec_float) :=
  scenario_boxes Z2F32 ++ [box_of Z2F32 100 100 110 110].
Definition scenario_scores_with_D : list spec_float :=
  scenario_scores Q2F32 ++ [Q2F32 1 10].

(** ** Buffers and loops *)

Lemma read_Some {A} (l : list A) i a : l !! i = Some a → read l i = Ok a.
Proof. unfold read. by intros ->. Qed.

Lemma read_Ok {A} (l : list A) i a : read l i = Ok a → l !! i = Some a.
Proof. unfold read. destruct (l !! i); naive_solver. Qed.

Lemma write_Ok {A} (l : list A) i v l' :
  write l i v = Ok l' → i < length l ∧ l' = <[i := v]> l.
Proof. unfold write. case_decide; naive_solver. Qed.

Lemma write_lt {A} (l : list A) i v :
  i < length l → write l i v = Ok (<[i := v]> l).
Proof. unfold write. intros. by rewrite decide_True. Qed.

Lemma bind_Ok {A B} (m : outcome A) (f : A → outcome B) b :
  m ≫= f = Ok b → ∃ a, m = Ok a ∧ f a = Ok b.
Proof. destruct m; naive_solver. Qed.

(** A property kept by every iteration is kept by the loop. *)
Lemma for_loop_invariant {St} (P : St → Prop) body count k (s s' : St) :
  (∀ k s s', P s → body k s = Ok s' → P s') →
  P s → for_loop count k body s = Ok s' → P s'.
Proof.
  intros Hbody. revert k s.
  induction count as [|count IH]; intros k s Hs Hrun; simpl in Hrun.
  - by simplify_eq.
  - apply bind_Ok in Hrun as (s1 & Hstep & Hrun). eauto.
Qed.

(** A relation that every iteration extends is extended by the loop. *)
Lemma for_loop_preorder {St} (R : relation St) `{!PreOrder R}
    body count k (s s' : St) :
  (∀ k s s', body k s = Ok s' → R s s') →
  for_loop count k body s = Ok s' → R s s'.
Proof.
  intros Hbody. revert k s.
  induction count as [|count IH]; intros k s Hrun; simpl in Hrun.
  - by simplify_eq.
  - apply bind_Ok in Hrun as (s1 & Hstep & Hrun).
    transitivity s1; eauto.
Qed.

(** ** The flags as a set *)

Lemma length_flags n S : length (flags n S) = n.
Proof. unfold flags. by rewrite length_fmap, length_seq. Qed.

Lemma lookup_flags n S i :
  i < n → flags n S !! i = Some (if decide (i ∈ S) then 1%Z else 0%Z).
Proof.
  intros Hi. unfold flags. by rewrite list_lookup_fmap, lookup_seq_lt.
Qed.

Lemma flags_empty n : flags n ∅ = replicate n 0%Z.
Proof.
  apply list_eq. intros i. destruct (decide (i < n)).
  - rewrite lookup_flags, lookup_replicate_2 by done.
    by rewrite decide_False by set_solver.
  - rewrite !lookup_ge_None_2; [done|..].
    + rewrite length_replicate. lia.
    + rewrite length_flags. lia.
Qed.

Lemma flags_insert n S j :
  j < n → <[j := 1%Z]> (flags n S) = flags n ({[j]} ∪ S).
Proof.
  intros Hj. apply list_eq. intros i. destruct (decide (i = j)) as [->|Hne].
  - rewrite list_lookup_insert_eq by (rewrite length_flags; lia).
    rewrite lookup_flags by done. by rewrite decide_True by set_solver.
  - rewrite list_lookup_insert_ne by done. destruct (decide (i < n)).
    + rewrite !lookup_flags by done.
      destruct (decide (i ∈ S)).
      * by rewrite decide_True by set_solver.
      * by rewrite decide_False by set_solver.
    + rewrite !lookup_ge_None_2; [done|rewrite length_flags; lia..].
Qed.

Lemma nonzero_from_filter (g : nat → bool) k m :
  nonzero_from k (g <$> seq k m) = filter (λ i, g i = true) (seq k m).
Proof.
  revert k. induction m as [|m IH]; intros k; [done|].
  simpl. rewrite IH. rewrite filter_cons. destruct (g k) eqn:Hg.
  - by rewrite decide_True.
  - by rewrite decide_False by congruence.
Qed.

Lemma nonzero_flags n S :
  nonzero ((λ s, (s =? 0)%Z) <$> flags n S) = filter (λ i, i ∉ S) (seq 0 n).
Proof.
  unfold nonzero, flags. rewrite <- list_fmap_compose.
  rewrite nonzero_from_filter. apply list_filter_iff.
  intros i. simpl. destruct (decide (i ∈ S)); simpl; naive_solver.
Qed.

(** ** The loops compute the greedy marking *)

Section refinement.
Context {F : Type} `{Scalar F}.
Variables (boxes : list (Box F)) (order : list nat) (threshold : spec_float).
Hypothesis order_length : length order = length boxes.
Hypothesis order_bound : Forall (λ i, i < length boxes) order.

Local Abbreviation n := (length boxes).
Local Abbreviation x1 := (bx1 <$> boxes).
Local Abbreviation y1 := (by1 <$> boxes).
Local Abbreviation x2 := (bx2 <$> boxes).
Local Abbreviation y2 := (by2 <$> boxes).
Local Abbreviation test := (overlap_test boxes (Ffloat threshold)).

Lemma areas_of_boxes (bs : list (Box F)) :
  areas_of (bx1 <$> bs) (by1 <$> bs) (bx2 <$> bs) (by2 <$> bs) = area <$> bs.
Proof.
  unfold areas_of. induction bs as [|b bs IH]; [done|].
  simpl. f_equal. exact IH.
Qed.

Lemma order_lookup k : k < n → ∃ j, order !! k = Some j ∧ j < n.
Proof.
  intros Hk. destruct (lookup_lt_is_Some_2 order k) as [j Hj]; [lia|].
  exists j. split; [done|].
  by eapply (Forall_lookup_1 _ _ _ _ order_bound).
Qed.

Lemma inner_body_mark i bi k j G :
  boxes !! i = Some bi → order !! k = Some j → j < n →
  inner_body order x1 y1 x2 y2 (area <$> boxes) threshold
    (bx1 bi) (by1 bi) (bx2 bi) (by2 bi) (area bi) k (flags n G)
  = Ok (flags n (mark test i G j)).
Proof.
  intros Hbi Hk Hj.
  destruct (lookup_lt_is_Some_2 boxes j Hj) as [bj Hbj].
  unfold inner_body, mark.
  rewrite (read_Some _ _ _ Hk). simpl.
  rewrite (read_Some _ _ _ (lookup_flags n G j Hj)). simpl.
  destruct (decide (j ∈ G)) as [Hin|Hout]; [done|]. simpl.
  unfold read. rewrite !list_lookup_fmap, Hbj. simpl.
  unfold overlap_test. rewrite Hbi, Hbj.
  change (Fge _ (Ffloat threshold))
    with (suppresses (Ffloat threshold) bi bj).
  destruct (suppresses (Ffloat threshold) bi bj); [|done].
  rewrite write_lt by (rewrite length_flags; lia).
  by rewrite flags_insert.
Qed.

Lemma inner_loop_marks i bi count lo G :
  boxes !! i = Some bi → lo + count = n →
  for_loop count lo
    (inner_body order x1 y1 x2 y2 (area <$> boxes) threshold
       (bx1 bi) (by1 bi) (bx2 bi) (by2 bi) (area bi)) (flags n G)
  = Ok (flags n (foldl (mark test i) G (drop lo order))).
Proof.
  intros Hbi. revert lo G.
  induction count as [|count IH]; intros lo G Hlo; simpl.
  - rewrite drop_ge by lia. done.
  - destruct (order_lookup lo) as (j & Hj & Hjn); [lia|].
    rewrite (drop_S _ _ _ Hj). simpl.
    rewrite (inner_body_mark i bi lo j G) by done. simpl.
    apply IH. lia.
Qed.

Lemma outer_body_greedy k i G :
  order !! k = Some i → k < n →
  outer_body n order x1 y1 x2 y2 (area <$> boxes) threshold k (flags n G)
  = Ok (flags n (if decide (i ∈ G) then G
                 else foldl (mark test i) G (drop (S k) order))).
Proof.
  intros Hk Hkn.
  assert (i < n) as Hi.
  { by eapply (Forall_lookup_1 _ _ _ _ order_bound). }
  destruct (lookup_lt_is_Some_2 boxes i Hi) as [bi Hbi].
  unfold outer_body.
  rewrite (read_Some _ _ _ Hk). simpl.
  rewrite (read_Some _ _ _ (lookup_flags n G i Hi)). simpl.
  destruct (decide (i ∈ G)) as [Hin|Hout]; [done|]. simpl.
  unfold read. rewrite !list_lookup_fmap, Hbi. simpl.
  unfold for_range. rewrite Nat.add_1_r.
  apply inner_loop_marks; [done|lia].
Qed.

Lemma outer_loop_greedy count lo G :
  lo + count = n →
  for_loop count lo
    (outer_body n order x1 y1 x2 y2 (area <$> boxes) threshold) (flags n G)
  = Ok (flags n (greedy test (drop lo order) G)).
Proof.
  revert lo G. induction count as [|count IH]; intros lo G Hlo; simpl.
  - rewrite drop_ge by lia. done.
  - destruct (order_lookup lo) as (i & Hi & Hin); [lia|].
    rewrite (drop_S _ _ _ Hi). simpl.
    rewrite (outer_body_greedy lo i G) by (done || lia). simpl.
    destruct (decide (i ∈ G)); apply IH; lia.
Qed.

End refinement.

(** ** The greedy marking *)

Section greedy_facts.
Variable test : nat → nat → bool.

Lemma elem_of_mark i G j x :
  x ∈ mark test i G j ↔ x ∈ G ∨ (x = j ∧ test i j = true).
Proof.
  unfold mark. destruct (decide (j ∈ G)); [set_solver|].
  destruct (test i j); set_solver.
Qed.

Lemma elem_of_foldl_mark i later G x :
  x ∈ foldl (mark test i) G later ↔ x ∈ G ∨ (x ∈ later ∧ test i x = true).
Proof.
  revert G. induction later as [|j later IH]; intros G; simpl.
  - set_solver.
  - rewrite IH, elem_of_mark. set_solver.
Qed.

Lemma greedy_mono order G : G ⊆ greedy test order G.
Proof.
  revert G. induction order as [|i later IH]; intros G; simpl; [done|].
  destruct (decide (i ∈ G)); [done|].
  etransitivity; [|apply IH].
  intros x Hx. apply elem_of_foldl_mark. by left.
Qed.

Lemma elem_of_greedy order G x :
  x ∈ greedy test order G → x ∈ G ∨ x ∈ order.
Proof.
  revert G. induction order as [|i later IH]; intros G; simpl; [by left|].
  destruct (decide (i ∈ G)); intros Hx.
  - destruct (IH _ Hx); set_solver.
  - destruct (IH _ Hx) as [Hx'|Hx']; [|set_solver].
    apply elem_of_foldl_mark in Hx'. set_solver.
Qed.

(** The box at a position ends flagged exactly when it was flagged from the
    start or a box at an earlier position that ends unflagged passes the
    test against it. *)
Lemma greedy_flagged order G pre j post :
  NoDup order → order = pre ++ j :: post →
  j ∈ greedy test order G ↔
    (j ∈ G ∨ ∃ i, i ∈ pre ∧ (i ∉ greedy test order G) ∧ test i j = true).
Proof.
  revert G pre. induction order as [|a later IH]; intros G pre Hnd Heq.
  { by destruct pre. }
  apply NoDup_cons in Hnd as [Ha Hnd]. simpl.
  destruct pre as [|a' pre]; simplify_eq/=.
  - (* the first position *)
    destruct (decide (j ∈ G)) as [Hin|Hout].
    + split; [by left|]. intros _. by apply greedy_mono.
    + split; [|set_solver]. intros Hj.
      apply elem_of_greedy in Hj as [Hj|Hj]; [|done].
      apply elem_of_foldl_mark in Hj. set_solver.
  - (* a later position *)
    destruct (decide (a' ∈ G)) as [Hin|Hout].
    + rewrite (IH G pre Hnd eq_refl).
      pose proof (greedy_mono (pre ++ j :: post) G).
      split; intros [?|(i & Hi & ? & ?)]; auto.
      * right. exists i. set_solver.
      * right. exists i. split_and!; [|done..].
        apply elem_of_cons in Hi as [->|Hi]; [|done]. set_solver.
    + set (G' := foldl (mark test a') G (pre ++ j :: post)).
      assert (a' ∉ greedy test (pre ++ j :: post) G') as Hkept.
      { intros [Hx|Hx]%elem_of_greedy; [|done].
        apply elem_of_foldl_mark in Hx. set_solver. }
      rewrite (IH G' pre Hnd eq_refl).
      unfold G' at 1. rewrite elem_of_foldl_mark.
      split.
      * intros [[?|[_ Ht]]|(i & Hi & ? & ?)]; [by left|right..].
        -- exists a'. set_solver.
        -- exists i. set_solver.
      * intros [?|(i & Hi & Hi' & Ht)]; [by left; left|].
        apply elem_of_cons in Hi as [->|Hi].
        -- left. right. set_solver.
        -- right. by exists i.
Qed.

End greedy_facts.

(** ** The kernel on well-formed calls *)

Section kernel_facts.
Context {F : Type} `{Scalar F}.
Variable sort_descending : list F → list nat.

Lemma index_permutation_facts (order : list nat) n :
  order ≡ₚ seq 0 n →
  length order = n ∧ Forall (λ i, i < n) order ∧ NoDup order ∧
  ∀ i, i ∈ order ↔ i < n.
Proof.
  intros Hp. split_and!.
  - by rewrite Hp, length_seq.
  - rewrite Hp. apply Forall_forall. intros i Hi%elem_of_seq. lia.
  - rewrite Hp. apply NoDup_seq.
  - intros i. rewrite Hp, elem_of_seq. lia.
Qed.

Lemma suppression_loop_flags boxes scores threshold :
  length boxes = length scores →
  sort_descending scores ≡ₚ seq 0 (length scores) →
  suppression_loop sort_descending boxes scores threshold
  = Ok (flags (length boxes)
          (greedy (overlap_test boxes (Ffloat threshold))
             (sort_descending scores) ∅)).
Proof.
  intros Hlen Hp. rewrite <- Hlen in Hp.
  apply index_permutation_facts in Hp as (Hlo & Hbound & _ & _).
  unfold suppression_loop, for_range.
  rewrite areas_of_boxes, <- flags_empty, Nat.sub_0_r.
  rewrite (outer_loop_greedy boxes _ threshold Hlo Hbound) by lia.
  by rewrite drop_0.
Qed.

Lemma nms_cpu_kernel_unfold dets scores threshold :
  is_cuda (type dets) = false → is_cuda (type scores) = false →
  type dets = type scores →
  nms_cpu_kernel sort_descending dets scores threshold
  = if numel dets =? 0 then Ok [] else
    suppressed ← suppression_loop sort_descending (data dets) (data scores)
                   threshold;
    Ok (nonzero ((λ s, (s =? 0)%Z) <$> suppressed)).
Proof.
  intros Hd Hs Ht. unfold nms_cpu_kernel. rewrite Hd, Hs. simpl.
  by rewrite bool_decide_true.
Qed.

Lemma nms_cpu_kernel_no_boxes dets scores threshold :
  is_cuda (type dets) = false → is_cuda (type scores) = false →
  type dets = type scores →
  data dets = [] →
  nms_cpu_kernel sort_descending dets scores threshold = Ok [].
Proof.
  intros Hd Hs Ht Hempty. rewrite nms_cpu_kernel_unfold by done.
  unfold numel. by rewrite Hempty.
Qed.

Lemma nms_cpu_kernel_refines dets scores threshold :
  well_formed_call sort_descending dets scores →
  nms_cpu_kernel sort_descending dets scores threshold
  = Ok (spec_suppress (sort_descending (data scores)) (data dets)
          (Ffloat threshold)).
Proof.
  intros [Hd Hs Ht Hlen Hp].
  rewrite nms_cpu_kernel_unfold by done.
  unfold numel, spec_suppress. destruct (data dets) as [|b bs] eqn:Hdata.
  { done. }
  rewrite <- Hdata in *.
  replace (4 * length (data dets) =? 0) with false.
  2:{ symmetry. apply Nat.eqb_neq. rewrite Hdata. simpl. lia. }
  rewrite suppression_loop_flags by done. simpl.
  by rewrite nonzero_flags.
Qed.

End kernel_facts.

(** ** The kept indices *)

Section kept_facts.
Context {F : Type} `{Scalar F}.
Variables (boxes : list (Box F)) (order : list nat) (threshold : F).
Hypothesis order_perm : order ≡ₚ seq 0 (length boxes).

Local Abbreviation keep := (spec_suppress order boxes threshold).
Local Abbreviation test := (overlap_test boxes threshold).

Lemma elem_of_spec_suppress i :
  i ∈ keep ↔ i < length boxes ∧ i ∉ greedy test order ∅.
Proof.
  unfold spec_suppress. rewrite list_elem_of_filter, elem_of_seq.
  split; intros [? ?]; split; (done || lia).
Qed.

Lemma spec_suppress_sorted : StronglySorted lt keep.
Proof.
  unfold spec_suppress. generalize 0 at 1. generalize (length boxes).
  intros m. induction m as [|m IH]; intros k; simpl; [constructor|].
  rewrite filter_cons. case_decide; [|apply IH].
  constructor; [apply IH|].
  apply Forall_forall. intros x [_ Hx%elem_of_seq]%list_elem_of_filter. lia.
Qed.

Lemma spec_suppress_NoDup : NoDup keep.
Proof. apply NoDup_filter, NoDup_seq. Qed.

Lemma spec_suppress_length : length keep ≤ length boxes.
Proof.
  unfold spec_suppress. etransitivity; [apply length_filter|].
  by rewrite length_seq.
Qed.

(** The box at a position is kept exactly when no kept box at an earlier
    position passes the test against it. *)
Lemma spec_suppress_kept pre j post :
  order = pre ++ j :: post →
  j ∈ keep ↔ ∀ i, i ∈ pre → i ∈ keep → test i j = false.
Proof.
  intros Heq.
  destruct (index_permutation_facts order _ order_perm)
    as (_ & _ & Hnd & Hin).
  assert (j < length boxes) as Hj by (apply Hin; set_solver).
  rewrite elem_of_spec_suppress.
  rewrite (greedy_flagged test order ∅ pre j post Hnd Heq).
  split.
  - intros [_ Hnot] i Hi [_ Hkept]%elem_of_spec_suppress.
    destruct (test i j) eqn:Ht; [|done].
    exfalso. apply Hnot. right. by exists i.
  - intros Hall. split; [done|].
    intros [?|(i & Hi & Hkept & Ht)]; [set_solver|].
    rewrite Hall in Ht; [done..|].
    apply elem_of_spec_suppress. split; [|done]. apply Hin. set_solver.
Qed.

(** The first box of the order is kept. *)
Lemma spec_suppress_top top rest : order = top :: rest → top ∈ keep.
Proof.
  intros Heq. apply (spec_suppress_kept [] top rest Heq). set_solver.
Qed.

End kept_facts.

(** ** The insertion sort returns a permutation of the indices *)

Section a_sort_facts.
Context {F : Type} `{Scalar F}.

Lemma insert_desc_Permutation (scores : list F) i l :
  insert_desc scores i l ≡ₚ i :: l.
Proof.
  induction l as [|k l IH]; simpl; [done|].
  destruct (scores !! k) as [sk|], (scores !! i) as [si|];
    try (rewrite IH; apply Permutation_swap).
  destruct (Flt sk si); [done|].
  rewrite IH. apply Permutation_swap.
Qed.

Lemma foldl_insert_desc_Permutation (scores : list F) idx acc :
  foldl (λ l i, insert_desc scores i l) acc idx ≡ₚ idx ++ acc.
Proof.
  revert acc. induction idx as [|i idx IH]; intros acc; simpl; [done|].
  rewrite IH, insert_desc_Permutation. by rewrite Permutation_middle.
Qed.

Lemma insertion_argsort_Permutation (scores : list F) :
  insertion_argsort scores ≡ₚ seq 0 (length scores).
Proof.
  unfold insertion_argsort.
  by rewrite foldl_insert_desc_Permutation, app_nil_r.
Qed.

End a_sort_facts.

(** ** Concrete calls *)

Lemma scenario_float_well_formed :
  well_formed_call sort_float (float_tensor (scenario_boxes Z2F32))
    (float_tensor (scenario_scores Q2F32)).
Proof.
  split; [done..|]. apply insertion_argsort_Permutation.
Qed.

Lemma scenario_float_descending :
  @is_descending _ binary32_ops (scenario_scores Q2F32)
    (sort_float (scenario_scores Q2F32)).
Proof. by vm_compute. Qed.

(** ** Descending scores *)

Section descending.
Context {F : Type} `{Scalar F}.

Lemma ranked_descending_head (s : F) rest s' :
  ranked_descending (s :: rest) = true → s' ∈ rest → Flt s s' = false.
Proof.
  simpl. intros [Hall _]%andb_prop Hin.
  rewrite forallb_forall in Hall.
  apply list_elem_of_In, Hall, negb_true_iff in Hin. done.
Qed.

Lemma descending_top_is_maximal (scores : list F) top rest j s_top s_j :
  top :: rest ≡ₚ seq 0 (length scores) →
  is_descending scores (top :: rest) →
  j ≠ top → scores !! top = Some s_top → scores !! j = Some s_j →
  Flt s_top s_j = false.
Proof.
  intros Hp Hdesc Hj Htop Hsj.
  destruct (index_permutation_facts _ _ Hp) as (_ & _ & _ & Hin).
  unfold is_descending in Hdesc. simpl in Hdesc. rewrite Htop in Hdesc.
  apply (ranked_descending_head _ _ _ Hdesc).
  apply list_elem_of_omap. exists j. split; [|done].
  assert (j ∈ top :: rest) as Hj'.
  { apply Hin. by eapply lookup_lt_Some. }
  set_solver.
Qed.

(** Along a descending list the score at an earlier position is never less
    than the score at a later one. *)
Lemma ranked_descending_split (l1 : list F) x l2 a :
  ranked_descending (l1 ++ x :: l2) = true → a ∈ l1 → Flt a x = false.
Proof.
  induction l1 as [|a' l1 IH]; intros Hdesc Ha.
  { by apply elem_of_nil in Ha. }
  apply elem_of_cons in Ha as [->|Ha].
  - apply (ranked_descending_head _ _ _ Hdesc). set_solver.
  - apply IH; [|done]. simpl in Hdesc. by apply andb_prop in Hdesc as [_ ?].
Qed.

(** In a descending order an index ranked before another has a score that is
    not less. *)
Lemma descending_earlier_not_less (scores : list F) pre j post i s_i s_j :
  is_descending scores (pre ++ j :: post) → i ∈ pre →
  scores !! i = Some s_i → scores !! j = Some s_j →
  Flt s_i s_j = false.
Proof.
  unfold is_descending. intros Hdesc Hi Hsi Hsj.
  rewrite omap_app in Hdesc. simpl in Hdesc. rewrite Hsj in Hdesc.
  apply (ranked_descending_split _ _ _ _ Hdesc).
  apply list_elem_of_omap. by exists i.
Qed.

End descending.

(** ** The algorithm (C2) *)

Section algorithm.
Context {F : Type} `{Scalar F}.
Variable sort_descending : list F → list nat.

(** C2: on every call with as many scores as boxes, [sort] giving the
    indices by descending score, the kernel returns what the algorithm of
    section 4.1 returns: areas [(x2 - x1 + 1) * (y2 - y1 + 1)], the indices
    in descending-score order (an index ranked before another has a score
    that is not less), for each unflagged reference box and each later
    unflagged box the intersection [w], [h], [inter] and
    [ovr = inter / (area_i + area_j - inter)], and a flag on the later box
    exactly when [ovr >= threshold]. Hence a box is kept exactly when no
    kept box ranked before it, whose score is not less, has
    [ovr >= threshold] against it. *)
Theorem kernel_follows_specified_algorithm dets scores threshold :
  well_formed_call sort_descending dets scores →
  is_descending (data scores) (sort_descending (data scores)) →
  ∃ keep,
    nms_cpu_kernel sort_descending dets scores threshold = Ok keep ∧
    keep = spec_suppress (sort_descending (data scores)) (data dets)
             (Ffloat threshold) ∧
    (∀ pre j post i s_i s_j,
       sort_descending (data scores) = pre ++ j :: post → i ∈ pre →
       data scores !! i = Some s_i → data scores !! j = Some s_j →
       Flt s_i s_j = false) ∧
    ∀ pre j post bj,
      sort_descending (data scores) = pre ++ j :: post →
      data dets !! j = Some bj →
      j ∈ keep ↔
      ¬ ∃ i bi s_i s_j,
          i ∈ pre ∧ i ∈ keep ∧ data dets !! i = Some bi ∧
          data scores !! i = Some s_i ∧ data scores !! j = Some s_j ∧
          Flt s_i s_j = false ∧
          Fge (ovr bi bj) (Ffloat threshold) = true.
Proof.
  intros Hwf Hdesc. eexists. split; [by apply nms_cpu_kernel_refines|].
  split; [done|].
  assert (∀ pre j post i s_i s_j,
            sort_descending (data scores) = pre ++ j :: post → i ∈ pre →
            data scores !! i = Some s_i → data scores !! j = Some s_j →
            Flt s_i s_j = false) as Hranked.
  { intros pre j post i s_i s_j Heq. rewrite Heq in Hdesc.
    by apply (descending_earlier_not_less (data scores) pre j post). }
  split; [done|]. intros pre j post bj Heq Hbj.
  destruct Hwf as [_ _ _ Hlen Hp].
  destruct (index_permutation_facts _ _ Hp) as (_ & _ & _ & Hin).
  rewrite <- Hlen in Hp.
  rewrite (spec_suppress_kept _ _ _ Hp pre j post Heq).
  split.
  - intros Hall (i & bi & s_i & s_j & Hi & Hkept & Hbi & _ & _ & _ & Hge).
    specialize (Hall i Hi Hkept). unfold overlap_test in Hall.
    rewrite Hbi, Hbj in Hall. unfold suppresses in Hall. congruence.
  - intros Hnot i Hi Hkept.
    destruct (overlap_test (data dets) (Ffloat threshold) i j) eqn:Ht;
      [|done].
    exfalso. apply Hnot. unfold overlap_test in Ht.
    destruct (data dets !! i) as [bi|] eqn:Hbi; [|done].
    rewrite Hbj in Ht.
    destruct (lookup_lt_is_Some_2 (data scores) i) as [s_i Hsi].
    { apply Hin. rewrite Heq. set_solver. }
    destruct (lookup_lt_is_Some_2 (data scores) j) as [s_j Hsj].
    { apply Hin. rewrite Heq. set_solver. }
    exists i, bi, s_i, s_j. split_and!; try done.
    by apply (Hranked pre j post i).
Qed.

End algorithm.

Lemma kernel_follows_specified_algorithm_witness :
  ∃ keep,
    nms_cpu_kernel_float sort_float (float_tensor (scenario_boxes Z2F32))
      (float_tensor (scenario_scores Q2F32)) half = Ok keep ∧
    keep = [0; 2].
Proof.
  destruct (@kernel_follows_specified_algorithm spec_float binary32_ops
              sort_float (float_tensor (scenario_boxes Z2F32))
              (float_tensor (scenario_scores Q2F32)) half
              scenario_float_well_formed scenario_float_descending)
    as (keep & Hrun & Hkeep & _).
  exists keep. split; [exact Hrun|]. rewrite Hkeep. by vm_compute.
Defined.

(** ** The empty input and the top-ranked box (C6, C9) *)

Section empty_and_top.
Context {F : Type} `{Scalar F}.
Variable sort_descending : list F → list nat.

(** C6: with no box the kernel returns the empty sequence, whatever the
    scores and whatever [sort] would return: nothing is computed. *)
Theorem empty_input_returns_empty dets scores threshold :
  is_cuda (type dets) = false → is_cuda (type scores) = false →
  type dets = type scores →
  data dets = [] →
  nms_cpu_kernel sort_descending dets scores threshold = Ok [].
Proof.
  intros Hd Hs Ht Hempty. rewrite nms_cpu_kernel_unfold by done.
  unfold numel. rewrite Hempty. reflexivity.
Qed.

(** C9: on a non-empty input the first index of the descending-score order
    is in the result, and no box has a score greater than its score. *)
Theorem top_ranked_box_is_kept dets scores threshold :
  well_formed_call sort_descending dets scores →
  is_descending (data scores) (sort_descending (data scores)) →
  data dets ≠ [] →
  ∃ top keep,
    sort_descending (data scores) !! 0 = Some top ∧
    nms_cpu_kernel sort_descending dets scores threshold = Ok keep ∧
    top ∈ keep ∧
    ∀ j s_top s_j,
      j ≠ top → data scores !! top = Some s_top →
      data scores !! j = Some s_j → Flt s_top s_j = false.
Proof.
  intros Hwf Hdesc Hne. pose proof Hwf as [_ _ _ Hlen Hp].
  destruct (index_permutation_facts _ _ Hp) as (Hlo & _ & _ & Hin).
  destruct (sort_descending (data scores)) as [|top rest] eqn:Horder.
  { destruct (data dets); simpl in *; [done|lia]. }
  exists top, (spec_suppress (top :: rest) (data dets) (Ffloat threshold)).
  split; [done|]. split.
  { rewrite <- Horder. by apply nms_cpu_kernel_refines. }
  split.
  { eapply spec_suppress_top; [|done]. by rewrite Hlen. }
  intros j s_top s_j. by apply (descending_top_is_maximal _ top rest).
Qed.

End empty_and_top.

Lemma empty_input_returns_empty_witness :
  nms_cpu_kernel_float sort_float (float_tensor [])
    (float_tensor [Z2F32 1]) half = Ok [].
Proof.
  exact (@empty_input_returns_empty spec_float binary32_ops sort_float
           (float_tensor []) (float_tensor [Z2F32 1]) half
           eq_refl eq_refl eq_refl eq_refl).
Defined.

Lemma top_ranked_box_is_kept_witness :
  ∃ top keep,
    sort_float (scenario_scores Q2F32) !! 0 = Some top ∧
    nms_cpu_kernel_float sort_float (float_tensor (scenario_boxes Z2F32))
      (float_tensor (scenario_scores Q2F32)) half = Ok keep ∧
    top ∈ keep ∧
    ∀ j s_top s_j,
      j ≠ top → scenario_scores Q2F32 !! top = Some s_top →
      scenario_scores Q2F32 !! j = Some s_j → SFltb s_top s_j = false.
Proof.
  refine (@top_ranked_box_is_kept spec_float binary32_ops sort_float
            (float_tensor (scenario_boxes Z2F32))
            (float_tensor (scenario_scores Q2F32)) half
            scenario_float_well_formed scenario_float_descending _).
  discriminate.
Defined.

(** ** The flags during the loops (C8) *)

Global Instance flags_le_preorder : PreOrder flags_le.
Proof.
  split.
  - by intros s.
  - intros s1 s2 s3 [Hl12 H12] [Hl23 H23]. split; [congruence|auto].
Qed.

Lemma flags_le_insert (s : list Z) j : flags_le s (<[j := 1%Z]> s).
Proof.
  split; [apply length_insert|]. intros i Hi.
  destruct (decide (i = j)) as [->|Hne].
  - apply list_lookup_insert_eq. by eapply lookup_lt_Some.
  - by rewrite list_lookup_insert_ne.
Qed.

Section flag_discipline.
Context {F : Type} `{Scalar F}.
Variables (order : list nat) (x1 y1 x2 y2 areas : list F).
Variables (threshold : spec_float) (ndets : nat).

Local Abbreviation inner := (inner_body order x1 y1 x2 y2 areas threshold).
Local Abbreviation outer :=
  (outer_body ndets order x1 y1 x2 y2 areas threshold).
Local Abbreviation is_flag := (λ v : Z, v = 0%Z ∨ v = 1%Z).

(** An iteration of the inner loop leaves the flags as they are or sets
    one flag that was 0 to 1. *)
Lemma inner_body_step ix1 iy1 ix2 iy2 iarea k s s' :
  Forall is_flag s →
  inner ix1 iy1 ix2 iy2 iarea k s = Ok s' →
  Forall is_flag s' ∧
  (s' = s ∨
   ∃ j, order !! k = Some j ∧ s !! j = Some 0%Z ∧ s' = <[j := 1%Z]> s).
Proof.
  intros Hflags Hrun. unfold inner_body in Hrun.
  apply bind_Ok in Hrun as (j & Hj%read_Ok & Hrun).
  apply bind_Ok in Hrun as (sj & Hsj%read_Ok & Hrun).
  destruct (sj =? 1)%Z eqn:Hflag; [by simplify_eq; auto|].
  apply bind_Ok in Hrun as (x1j & _ & Hrun).
  apply bind_Ok in Hrun as (y1j & _ & Hrun).
  apply bind_Ok in Hrun as (x2j & _ & Hrun).
  apply bind_Ok in Hrun as (y2j & _ & Hrun).
  apply bind_Ok in Hrun as (areaj & _ & Hrun).
  destruct (Fge _ _); [|by simplify_eq; auto].
  apply write_Ok in Hrun as [_ ->]. split.
  - apply Forall_insert; auto.
  - right. exists j. split_and!; [done| |done].
    apply Z.eqb_neq in Hflag.
    destruct (Forall_lookup_1 _ _ _ _ Hflags Hsj); congruence.
Qed.

Lemma inner_body_le ix1 iy1 ix2 iy2 iarea k s s' :
  inner ix1 iy1 ix2 iy2 iarea k s = Ok s' → flags_le s s'.
Proof.
  intros Hrun. unfold inner_body in Hrun.
  apply bind_Ok in Hrun as (j & Hj%read_Ok & Hrun).
  apply bind_Ok in Hrun as (sj & Hsj%read_Ok & Hrun).
  destruct (sj =? 1)%Z; [by simplify_eq|].
  apply bind_Ok in Hrun as (x1j & _ & Hrun).
  apply bind_Ok in Hrun as (y1j & _ & Hrun).
  apply bind_Ok in Hrun as (x2j & _ & Hrun).
  apply bind_Ok in Hrun as (y2j & _ & Hrun).
  apply bind_Ok in Hrun as (areaj & _ & Hrun).
  destruct (Fge _ _); [|by simplify_eq].
  apply write_Ok in Hrun as [_ ->]. apply flags_le_insert.
Qed.

Lemma inner_loop_le ix1 iy1 ix2 iy2 iarea count k s s' :
  for_loop count k (inner ix1 iy1 ix2 iy2 iarea) s = Ok s' → flags_le s s'.
Proof. apply for_loop_preorder; [apply _|]. apply inner_body_le. Qed.

Lemma inner_loop_flags ix1 iy1 ix2 iy2 iarea count k s s' :
  Forall is_flag s →
  for_loop count k (inner ix1 iy1 ix2 iy2 iarea) s = Ok s' →
  Forall is_flag s'.
Proof.
  apply for_loop_invariant. intros k' t t' Ht Hrun.
  by destruct (inner_body_step _ _ _ _ _ _ _ _ Ht Hrun).
Qed.

Lemma outer_body_le k s s' : outer k s = Ok s' → flags_le s s'.
Proof.
  intros Hrun. unfold outer_body in Hrun.
  apply bind_Ok in Hrun as (i & _ & Hrun).
  apply bind_Ok in Hrun as (si & _ & Hrun).
  destruct (si =? 1)%Z; [by simplify_eq|].
  apply bind_Ok in Hrun as (ix1 & _ & Hrun).
  apply bind_Ok in Hrun as (iy1 & _ & Hrun).
  apply bind_Ok in Hrun as (ix2 & _ & Hrun).
  apply bind_Ok in Hrun as (iy2 & _ & Hrun).
  apply bind_Ok in Hrun as (iarea & _ & Hrun).
  by eapply inner_loop_le.
Qed.

Lemma outer_body_flags k s s' :
  Forall is_flag s → outer k s = Ok s' → Forall is_flag s'.
Proof.
  intros Hflags Hrun. unfold outer_body in Hrun.
  apply bind_Ok in Hrun as (i & _ & Hrun).
  apply bind_Ok in Hrun as (si & _ & Hrun).
  destruct (si =? 1)%Z; [by simplify_eq|].
  apply bind_Ok in Hrun as (ix1 & _ & Hrun).
  apply bind_Ok in Hrun as (iy1 & _ & Hrun).
  apply bind_Ok in Hrun as (ix2 & _ & Hrun).
  apply bind_Ok in Hrun as (iy2 & _ & Hrun).
  apply bind_Ok in Hrun as (iarea & _ & Hrun).
  by eapply inner_loop_flags.
Qed.

(** A flagged box is skipped as a candidate and as a reference box, before
    any of its coordinates is read. *)
Lemma inner_body_skip ix1 iy1 ix2 iy2 iarea k j s :
  order !! k = Some j → s !! j = Some 1%Z →
  inner ix1 iy1 ix2 iy2 iarea k s = Ok s.
Proof.
  intros Hj Hs. unfold inner_body.
  rewrite (read_Some _ _ _ Hj). simpl. by rewrite (read_Some _ _ _ Hs).
Qed.

Lemma outer_body_skip k i s :
  order !! k = Some i → s !! i = Some 1%Z → outer k s = Ok s.
Proof.
  intros Hi Hs. unfold outer_body.
  rewrite (read_Some _ _ _ Hi). simpl. by rewrite (read_Some _ _ _ Hs).
Qed.

(** C8: the flags start at 0; an iteration of the inner loop changes
    nothing or sets one flag from 0 to 1; over any stretch of either loop no
    flag goes back from 1; and a box whose flag is 1 is skipped both as a
    candidate and as a reference box, the flags staying as they are. *)
Theorem flags_only_rise_and_flagged_boxes_are_skipped :
  (∀ sort_descending dets scores,
     suppression_loop sort_descending dets scores threshold
     = for_range 0 (length dets)
         (outer_body (length dets) (sort_descending scores)
            (bx1 <$> dets) (by1 <$> dets) (bx2 <$> dets) (by2 <$> dets)
            (areas_of (bx1 <$> dets) (by1 <$> dets) (bx2 <$> dets)
               (by2 <$> dets)) threshold)
         (replicate (length dets) 0%Z)) ∧
  (∀ ix1 iy1 ix2 iy2 iarea k s s',
     Forall is_flag s → inner ix1 iy1 ix2 iy2 iarea k s = Ok s' →
     Forall is_flag s' ∧
     (s' = s ∨
      ∃ j, order !! k = Some j ∧ s !! j = Some 0%Z ∧ s' = <[j := 1%Z]> s)) ∧
  (∀ ix1 iy1 ix2 iy2 iarea count k s s',
     for_loop count k (inner ix1 iy1 ix2 iy2 iarea) s = Ok s' →
     flags_le s s') ∧
  (∀ count k s s',
     Forall is_flag s → for_loop count k outer s = Ok s' →
     Forall is_flag s' ∧ flags_le s s') ∧
  (∀ ix1 iy1 ix2 iy2 iarea k j s,
     order !! k = Some j → s !! j = Some 1%Z →
     inner ix1 iy1 ix2 iy2 iarea k s = Ok s) ∧
  (∀ k i s,
     order !! k = Some i → s !! i = Some 1%Z → outer k s = Ok s).
Proof.
  split_and!.
  - done.
  - apply inner_body_step.
  - apply inner_loop_le.
  - intros count k s s' Hflags Hrun. split.
    + revert Hflags Hrun. apply for_loop_invariant.
      intros k' t t'. apply outer_body_flags.
    + revert Hrun. apply for_loop_preorder; [apply _|].
      apply outer_body_le.
  - apply inner_body_skip.
  - apply outer_body_skip.
Qed.

End flag_discipline.

Lemma flags_only_rise_and_flagged_boxes_are_skipped_witness :
  (scenario_inner 2 [0; 0; 0]%Z = Ok [0; 1; 0]%Z ∧
   Forall (λ v : Z, v = 0%Z ∨ v = 1%Z) [0; 1; 0]%Z ∧
   ([0; 1; 0]%Z = [0; 0; 0]%Z ∨
    ∃ j, [2; 0; 1] !! 2 = Some j ∧ [0; 0; 0]%Z !! j = Some 0%Z ∧
         [0; 1; 0]%Z = <[j := 1%Z]> [0; 0; 0]%Z)) ∧
  scenario_outer 2 [0; 1; 0]%Z = Ok [0; 1; 0]%Z.
Proof.
  pose proof (@flags_only_rise_and_flagged_boxes_are_skipped spec_float
                binary32_ops [2; 0; 1] scenario_x1 scenario_y1 scenario_x2
                scenario_y2 scenario_areas half 3) as Hflags.
  destruct Hflags as (_ & Hstep & _ & _ & _ & Hskip).
  assert (scenario_inner 2 [0; 0; 0]%Z = Ok [0; 1; 0]%Z) as Hrun.
  { vm_compute. reflexivity. }
  assert (Forall (λ v : Z, v = 0%Z ∨ v = 1%Z) [0; 0; 0]%Z) as Hzero.
  { repeat constructor; auto. }
  split.
  - split; [exact Hrun|]. exact (Hstep _ _ _ _ _ _ _ _ Hzero Hrun).
  - exact (Hskip 2 1 [0; 1; 0]%Z eq_refl eq_refl).
Defined.

(** ** The result (C5) *)

Lemma elem_of_nonzero_from k t i :
  i ∈ nonzero_from k t ↔ ∃ p, i = k + p ∧ t !! p = Some true.
Proof.
  revert k. induction t as [|b t IH]; intros k; simpl.
  { split; [by intros ?%elem_of_nil|by intros (p & _ & ?)]. }
  assert (i ∈ nonzero_from (S k) t ↔ ∃ p, i = k + S p ∧ t !! p = Some true)
    as Htail.
  { rewrite IH. by setoid_rewrite Nat.add_succ_r. }
  destruct b.
  - rewrite elem_of_cons, Htail. split.
    + intros [->|(p & -> & Hp)]; [exists 0|exists (S p)]; split; (done || lia).
    + intros ([|p] & -> & Hp); [left; lia|right; eauto].
  - rewrite Htail. split.
    + intros (p & -> & Hp). by exists (S p).
    + intros ([|p] & -> & Hp); [done|eauto].
Qed.

Lemma nonzero_from_sorted k t : StronglySorted lt (nonzero_from k t).
Proof.
  revert k. induction t as [|b t IH]; intros k; simpl; [constructor|].
  destruct b; [|apply IH]. constructor; [apply IH|].
  apply Forall_forall. intros i (p & -> & _)%elem_of_nonzero_from. lia.
Qed.

Lemma length_nonzero_from k t : length (nonzero_from k t) ≤ length t.
Proof.
  revert k. induction t as [|b t IH]; intros k; simpl; [done|].
  destruct b; simpl; [apply le_n_S, IH|]. etransitivity; [apply IH|lia].
Qed.

Section result.
Context {F : Type} `{Scalar F}.
Variable sort_descending : list F → list nat.

Lemma suppression_loop_length dets scores threshold suppressed :
  suppression_loop sort_descending dets scores threshold = Ok suppressed →
  length suppressed = length dets.
Proof.
  unfold suppression_loop, for_range. intros Hrun.
  apply (for_loop_preorder flags_le) in Hrun as [Hlen _].
  - by rewrite Hlen, length_replicate.
  - intros k s s'. apply outer_body_le.
Qed.

(** C5: a call with one score per box returns; and whenever the kernel
    returns, the returned sequence holds exactly the indices whose flag is
    still 0 when the double loop finishes, in ascending index order, and has
    at most N elements. *)
Theorem result_is_unflagged_indices_ascending dets scores threshold :
  (well_formed_call sort_descending dets scores →
   ∃ keep, nms_cpu_kernel sort_descending dets scores threshold = Ok keep) ∧
  ∀ keep,
    nms_cpu_kernel sort_descending dets scores threshold = Ok keep →
    ∃ suppressed,
      suppression_loop sort_descending (data dets) (data scores) threshold
        = Ok suppressed ∧
      length suppressed = length (data dets) ∧
      (∀ i, i ∈ keep ↔ suppressed !! i = Some 0%Z) ∧
      StronglySorted lt keep ∧
      length keep ≤ length (data dets).
Proof.
  split.
  { intros Hwf. eexists. by apply nms_cpu_kernel_refines. }
  intros keep Hrun. unfold nms_cpu_kernel in Hrun.
  destruct (is_cuda (type dets)); [done|].
  destruct (is_cuda (type scores)); [done|].
  destruct (bool_decide (type dets = type scores)); [|done].
  simpl in Hrun. unfold numel in Hrun.
  destruct (data dets) as [|b bs] eqn:Hdata.
  { simplify_eq/=. exists []. split_and!; [done..| |constructor|done].
    intros i. split; [by intros ?%elem_of_nil|done]. }
  rewrite <- Hdata in *.
  replace (4 * length (data dets) =? 0) with false in Hrun.
  2:{ symmetry. apply Nat.eqb_neq. rewrite Hdata. simpl. lia. }
  apply bind_Ok in Hrun as (suppressed & Hloop & [= <-]).
  pose proof (suppression_loop_length _ _ _ _ Hloop) as Hlen.
  exists suppressed. split_and!; [done..| | |].
  - intros i. unfold nonzero. rewrite elem_of_nonzero_from.
    setoid_rewrite list_lookup_fmap. split.
    + intros (p & -> & Hp). simpl.
      destruct (suppressed !! p) as [v|]; simplify_eq/=.
      f_equal. by apply Z.eqb_eq.
    + intros Hi. exists i. by rewrite Hi.
  - apply nonzero_from_sorted.
  - rewrite <- Hlen. etransitivity; [apply length_nonzero_from|].
    by rewrite length_fmap.
Qed.

End result.

Lemma result_is_unflagged_indices_ascending_witness :
  ∃ suppressed,
    @suppression_loop spec_float binary32_ops sort_float
      (scenario_boxes Z2F32) (scenario_scores Q2F32) half = Ok suppressed ∧
    length suppressed = 3 ∧
    (∀ i, i ∈ [0; 2] ↔ suppressed !! i = Some 0%Z) ∧
    StronglySorted lt [0; 2] ∧
    length [0; 2] ≤ 3.
Proof.
  pose proof (@result_is_unflagged_indices_ascending spec_float binary32_ops
                sort_float (float_tensor (scenario_boxes Z2F32))
                (float_tensor (scenario_scores Q2F32)) half) as [_ Hresult].
  apply (Hresult [0; 2]). vm_compute. reflexivity.
Defined.

(** ** Errors (C1) *)

Lemma never_throws_Ok {A} (a : A) : never_throws (Ok a).
Proof. by intros msg. Qed.

Lemma never_throws_read {A} (l : list A) i : never_throws (read l i).
Proof. intros msg. unfold read. by destruct (l !! i). Qed.

Lemma never_throws_write {A} (l : list A) i v : never_throws (write l i v).
Proof. intros msg. unfold write. by case_decide. Qed.

Lemma never_throws_bind {A B} (m : outcome A) (f : A → outcome B) :
  never_throws m → (∀ a, never_throws (f a)) → never_throws (m ≫= f).
Proof.
  intros Hm Hf msg. destruct m as [a|msg0|]; simpl; [apply Hf| |done].
  by destruct (Hm msg0).
Qed.

Lemma never_throws_for_loop {St} body count k (s : St) :
  (∀ k s, never_throws (body k s)) → never_throws (for_loop count k body s).
Proof.
  intros Hbody. revert k s. induction count as [|count IH]; intros k s; simpl.
  - apply never_throws_Ok.
  - apply never_throws_bind; auto.
Qed.

Ltac never_throws_step :=
  first
    [ apply never_throws_Ok
    | apply never_throws_read
    | apply never_throws_write
    | apply never_throws_for_loop; intros ? ?
    | apply never_throws_bind; [|intros ?]
    | match goal with
      | |- never_throws (if ?b then _ else _) => destruct b
      end
    | progress cbv zeta ].

Section errors.
Context {F : Type} `{Scalar F}.
Variable sort_descending : list F → list nat.

Lemma never_throws_inner_body order x1 y1 x2 y2 areas threshold
    ix1 iy1 ix2 iy2 iarea k s :
  never_throws
    (inner_body order x1 y1 x2 y2 areas threshold ix1 iy1 ix2 iy2 iarea k s).
Proof. unfold inner_body. repeat never_throws_step. Qed.

Lemma never_throws_outer_body ndets order x1 y1 x2 y2 areas threshold k s :
  never_throws (outer_body ndets order x1 y1 x2 y2 areas threshold k s).
Proof.
  unfold outer_body, for_range.
  do 2 (apply never_throws_bind; [apply never_throws_read|intros ?]).
  destruct (_ =? _)%Z; [apply never_throws_Ok|].
  do 5 (apply never_throws_bind; [apply never_throws_read|intros ?]).
  apply never_throws_for_loop. intros k' s'.
  apply never_throws_inner_body.
Qed.

Lemma never_throws_suppression_loop dets scores threshold :
  never_throws (suppression_loop sort_descending dets scores threshold).
Proof.
  unfold suppression_loop, for_range. apply never_throws_for_loop.
  intros k s. apply never_throws_outer_body.
Qed.

(** C1, as the code has it: the kernel does not compare the number of boxes
    with the number of scores. It throws exactly when one of its three
    assertions fails, before anything else is done; when they hold it never
    throws, whatever the two lengths: without boxes it returns the empty
    sequence, and with one score per box it returns a result. *)
Theorem only_the_assertions_throw dets scores threshold :
  let run := nms_cpu_kernel sort_descending dets scores threshold in
  (is_cuda (type dets) = true → run = Throw "dets must be a CPU tensor") ∧
  (is_cuda (type dets) = false → is_cuda (type scores) = true →
   run = Throw "scores must be a CPU tensor") ∧
  (is_cuda (type dets) = false → is_cuda (type scores) = false →
   type dets ≠ type scores →
   run = Throw "dets should have the same type as scores") ∧
  (is_cuda (type dets) = false → is_cuda (type scores) = false →
   type dets = type scores →
   (∀ msg, run ≠ Throw msg) ∧
   (data dets = [] → run = Ok []) ∧
   (length (data dets) = length (data scores) →
    sort_descending (data scores) ≡ₚ seq 0 (length (data scores)) →
    ∃ keep, run = Ok keep)).
Proof.
  intros run. unfold run. split_and!.
  - intros Hd. unfold nms_cpu_kernel. by rewrite Hd.
  - intros Hd Hs. unfold nms_cpu_kernel. by rewrite Hd, Hs.
  - intros Hd Hs Ht. unfold nms_cpu_kernel. rewrite Hd, Hs. simpl.
    by rewrite bool_decide_false.
  - intros Hd Hs Ht. split_and!.
    + rewrite nms_cpu_kernel_unfold by done.
      change (never_throws
        (if numel dets =? 0 then Ok [] else
         suppressed ← suppression_loop sort_descending (data dets)
                        (data scores) threshold;
         Ok (nonzero ((λ s, (s =? 0)%Z) <$> suppressed)))).
      destruct (numel dets =? 0); [apply never_throws_Ok|].
      apply never_throws_bind; [|intros ?; apply never_throws_Ok].
      apply never_throws_suppression_loop.
    + intros Hempty. by apply nms_cpu_kernel_no_boxes.
    + intros Hlen Hp. eexists. by apply nms_cpu_kernel_refines.
Qed.

End errors.

Lemma only_the_assertions_throw_witness :
  nms_cpu_kernel_float sort_float
    {| type := {| is_cuda := true; scalar_type := Float |};
       data := scenario_boxes Z2F32 |}
    (float_tensor (scenario_scores Q2F32)) half
  = Throw "dets must be a CPU tensor" ∧
  ((∀ msg,
      nms_cpu_kernel_float sort_float (float_tensor (scenario_boxes Z2F32))
        (float_tensor (scenario_scores Q2F32)) half ≠ Throw msg) ∧
   ∃ keep,
     nms_cpu_kernel_float sort_float (float_tensor (scenario_boxes Z2F32))
       (float_tensor (scenario_scores Q2F32)) half = Ok keep).
Proof.
  split.
  - pose proof (@only_the_assertions_throw spec_float binary32_ops sort_float
                  {| type := {| is_cuda := true; scalar_type := Float |};
                     data := scenario_boxes Z2F32 |}
                  (float_tensor (scenario_scores Q2F32)) half) as Hthrow.
    destruct Hthrow as (Hcuda & _). exact (Hcuda eq_refl).
  - pose proof (@only_the_assertions_throw spec_float binary32_ops sort_float
                  (float_tensor (scenario_boxes Z2F32))
                  (float_tensor (scenario_scores Q2F32)) half) as Hrun.
    destruct Hrun as (_ & _ & _ & Hrun).
    destruct (Hrun eq_refl eq_refl eq_refl) as (Hnever & _ & Hreturns).
    split; [exact Hnever|].
    apply Hreturns; [reflexivity|]. apply insertion_argsort_Permutation.
Defined.

(** C1, as it is stated, fails: a call with no box and one score, and a call
    with two boxes and three scores, return normally. *)
Lemma length_mismatch_is_not_rejected :
  ¬ rejects_length_mismatch sort_float (H := binary32_ops)
      (float_tensor []) (float_tensor [Z2F32 1]) half ∧
  ¬ rejects_length_mismatch sort_float (H := binary32_ops)
      (float_tensor [box_of Z2F32 0 0 10 10; box_of Z2F32 1 1 11 11])
      (float_tensor [Q2F32 9 10; Q2F32 8 10; Q2F32 1 10]) half.
Proof.
  split; intros Hrej.
  - destruct Hrej as [msg Hmsg]; [simpl; lia|].
    vm_compute in Hmsg. discriminate.
  - destruct Hrej as [msg Hmsg]; [simpl; lia|].
    vm_compute in Hmsg. discriminate.
Qed.

(** ** The scenario of section 8 (C7) *)

Lemma three_indices (order : list nat) :
  order ≡ₚ seq 0 3 →
  ∃ a b c, order = [a; b; c] ∧ a < 3 ∧ b < 3 ∧ c < 3 ∧
           a ≠ b ∧ a ≠ c ∧ b ≠ c.
Proof.
  intros Hp.
  destruct (index_permutation_facts order 3 Hp) as (Hlen & Hbound & Hnd & _).
  destruct order as [|a [|b [|c [|d order]]]]; simplify_eq/=.
  exists a, b, c.
  apply Forall_cons in Hbound as [Ha Hbound].
  apply Forall_cons in Hbound as [Hb Hbound].
  apply Forall_cons in Hbound as [Hc _].
  apply NoDup_cons in Hnd as [Hab Hnd].
  apply NoDup_cons in Hnd as [Hbc _].
  split_and!; [done..| | |]; set_solver.
Qed.

(** Whatever [sort] does with ties, on the three scores of the scenario a
    descending order of the indices is C, A, B. *)
Ltac scenario_order Hp Hdesc :=
  let a := fresh "a" in
  let b := fresh "b" in
  let c := fresh "c" in
  let Ha := fresh "Ha" in
  let Hb := fresh "Hb" in
  let Hc := fresh "Hc" in
  let Heq := fresh "Heq" in
  destruct (three_indices _ Hp) as (a & b & c & Heq & Ha & Hb & Hc & ? & ? & ?);
  rewrite Heq in Hdesc |- *;
  assert (a = 0 ∨ a = 1 ∨ a = 2) as [->|[->| ->]] by lia;
  assert (b = 0 ∨ b = 1 ∨ b = 2) as [->|[->| ->]] by lia;
  assert (c = 0 ∨ c = 1 ∨ c = 2) as [->|[->| ->]] by lia;
  try congruence; vm_compute in Hdesc; first [discriminate Hdesc|reflexivity].

Lemma scenario_order_float (sort_descending : list spec_float → list nat) :
  sort_descending (scenario_scores Q2F32) ≡ₚ seq 0 3 →
  is_descending (H := binary32_ops) (scenario_scores Q2F32)
    (sort_descending (scenario_scores Q2F32)) →
  sort_descending (scenario_scores Q2F32) = [2; 0; 1].
Proof. intros Hp Hdesc. scenario_order Hp Hdesc. Qed.

Lemma scenario_order_double (sort_descending : list spec_float → list nat) :
  sort_descending (scenario_scores Q2F64) ≡ₚ seq 0 3 →
  is_descending (H := binary64_ops) (scenario_scores Q2F64)
    (sort_descending (scenario_scores Q2F64)) →
  sort_descending (scenario_scores Q2F64) = [2; 0; 1].
Proof. intros Hp Hdesc. scenario_order Hp Hdesc. Qed.

(** C7: A=(0,0,10,10) with score 0.9 at index 0, B=(1,1,11,11) with score
    0.8 at index 1, C=(50,50,60,60) with score 0.95 at index 2, threshold
    0.5. The order is C, A, B and the result is [0, 2]: the iteration on C
    flags nothing, the iteration on A flags B, the iteration on B is
    skipped; the overlap of A and B is at least 0.5, the overlaps of A and C
    and of B and C are 0. In [float] and in [double], for every [sort] that
    returns a descending permutation. *)
Theorem scenario_keeps_A_and_C :
  (∀ sort_descending,
     sort_descending (scenario_scores Q2F32) ≡ₚ seq 0 3 →
     is_descending (H := binary32_ops) (scenario_scores Q2F32)
       (sort_descending (scenario_scores Q2F32)) →
     sort_descending (scenario_scores Q2F32) = [2; 0; 1] ∧
     nms_cpu_kernel_float sort_descending
       (float_tensor (scenario_boxes Z2F32))
       (float_tensor (scenario_scores Q2F32)) half = Ok [0; 2]) ∧
  (∀ sort_descending,
     sort_descending (scenario_scores Q2F64) ≡ₚ seq 0 3 →
     is_descending (H := binary64_ops) (scenario_scores Q2F64)
       (sort_descending (scenario_scores Q2F64)) →
     sort_descending (scenario_scores Q2F64) = [2; 0; 1] ∧
     nms_cpu_kernel_double sort_descending
       (double_tensor (scenario_boxes Z2F64))
       (double_tensor (scenario_scores Q2F64)) half = Ok [0; 2]) ∧
  scenario_outer 0 [0; 0; 0]%Z = Ok [0; 0; 0]%Z ∧
  scenario_outer 1 [0; 0; 0]%Z = Ok [0; 1; 0]%Z ∧
  scenario_outer 2 [0; 1; 0]%Z = Ok [0; 1; 0]%Z ∧
  suppresses (H := binary32_ops) half
    (box_of Z2F32 0 0 10 10) (box_of Z2F32 1 1 11 11) = true ∧
  ovr (H := binary32_ops)
    (box_of Z2F32 0 0 10 10) (box_of Z2F32 50 50 60 60) = zero ∧
  ovr (H := binary32_ops)
    (box_of Z2F32 1 1 11 11) (box_of Z2F32 50 50 60 60) = zero.
Proof.
  split_and!.
  - intros sort_descending Hp Hdesc.
    pose proof (scenario_order_float _ Hp Hdesc) as Horder.
    split; [done|]. unfold nms_cpu_kernel_float.
    assert (well_formed_call sort_descending
              (float_tensor (scenario_boxes Z2F32))
              (float_tensor (scenario_scores Q2F32))) as Hwf.
    { split; [reflexivity..|exact Hp]. }
    rewrite (nms_cpu_kernel_refines _ _ _ half Hwf).
    change (data (float_tensor (scenario_scores Q2F32)))
      with (scenario_scores Q2F32).
    rewrite Horder. vm_compute. reflexivity.
  - intros sort_descending Hp Hdesc.
    pose proof (scenario_order_double _ Hp Hdesc) as Horder.
    split; [done|]. unfold nms_cpu_kernel_double.
    assert (well_formed_call sort_descending
              (double_tensor (scenario_boxes Z2F64))
              (double_tensor (scenario_scores Q2F64))) as Hwf.
    { split; [reflexivity..|exact Hp]. }
    rewrite (nms_cpu_kernel_refines _ _ _ half Hwf).
    change (data (double_tensor (scenario_scores Q2F64)))
      with (scenario_scores Q2F64).
    rewrite Horder. vm_compute. reflexivity.
  - vm_compute. reflexivity.
  - vm_compute. reflexivity.
  - vm_compute. reflexivity.
  - vm_compute. reflexivity.
  - vm_compute. reflexivity.
  - vm_compute. reflexivity.
Qed.

Lemma scenario_keeps_A_and_C_witness :
  sort_float (scenario_scores Q2F32) = [2; 0; 1] ∧
  nms_cpu_kernel_float sort_float (float_tensor (scenario_boxes Z2F32))
    (float_tensor (scenario_scores Q2F32)) half = Ok [0; 2].
Proof.
  pose proof scenario_keeps_A_and_C as (Hfloat & _).
  apply (Hfloat sort_float).
  - apply (bool_decide_unpack _). vm_compute. reflexivity.
  - vm_compute. reflexivity.
Defined.

(** ** Lists of kept indices *)

Lemma filter_length_Forall {A} (P : A → Prop) `{∀ x, Decision (P x)} l :
  length (filter P l) = length l → Forall P l.
Proof.
  induction l as [|x l IH]; [constructor|].
  rewrite filter_cons. case_decide as Hx; simpl.
  - intros Hlen. constructor; [done|]. apply IH. lia.
  - pose proof (length_filter P l). lia.
Qed.

Lemma filter_Forall_id {A} (P : A → Prop) `{∀ x, Decision (P x)} l :
  Forall P l → filter P l = l.
Proof.
  induction 1 as [|x l Hx _ IH]; [done|].
  by rewrite filter_cons_True, IH.
Qed.

Lemma NoDup_only_elem {A} (l : list A) a :
  NoDup l → a ∈ l → (∀ x, x ∈ l → x = a) → l = [a].
Proof.
  intros Hnd Ha Hall. destruct l as [|x [|y l]].
  - by apply elem_of_nil in Ha.
  - f_equal. apply Hall. set_solver.
  - assert (x = a) as -> by (apply Hall; set_solver).
    assert (y = a) as -> by (apply Hall; set_solver).
    apply NoDup_cons in Hnd as [Hnd _]. set_solver.
Qed.

Lemma omap_lookup_length {A} (l : list A) (idx : list nat) :
  Forall (λ i, i < length l) idx →
  length (omap (λ i, l !! i) idx) = length idx.
Proof.
  induction 1 as [|i idx Hi _ IH]; [done|].
  simpl. destruct (lookup_lt_is_Some_2 l i Hi) as [x ->]. simpl.
  f_equal. exact IH.
Qed.

Lemma omap_lookup_lookup {A} (l : list A) (idx : list nat) a x :
  Forall (λ i, i < length l) idx →
  omap (λ i, l !! i) idx !! a = Some x ↔
  ∃ i, idx !! a = Some i ∧ l !! i = Some x.
Proof.
  intros Hidx. revert a. induction Hidx as [|i idx Hi _ IH]; intros a.
  { simpl. split; [done|]. by intros (i & ? & _). }
  simpl. destruct (lookup_lt_is_Some_2 l i Hi) as [y Hy]. rewrite Hy.
  destruct a as [|a]; simpl.
  - split; [intros [= ->]; eauto|]. intros (i' & [= <-] & Hx). congruence.
  - apply IH.
Qed.

(** ** Kept sets at the two ends: one box, every box *)

Section kept_sets.
Context {F : Type} `{Scalar F}.
Variables (boxes : list (Box F)) (order : list nat).
Hypothesis order_perm : order ≡ₚ seq 0 (length boxes).

Lemma order_elem j : j < length boxes → ∃ pre post, order = pre ++ j :: post.
Proof.
  intros Hj. apply list_elem_of_split.
  by apply (index_permutation_facts order _ order_perm).
Qed.

Lemma order_split_NoDup pre j post i :
  order = pre ++ j :: post → i ∈ pre → i ≠ j.
Proof.
  intros Heq Hi ->.
  destruct (index_permutation_facts order _ order_perm) as (_ & _ & Hnd & _).
  rewrite Heq in Hnd. apply NoDup_app in Hnd as (_ & Hnd & _).
  apply (Hnd j Hi). set_solver.
Qed.

(** Where the first box passes the test against every other box, it is the
    only one kept. *)
Lemma kept_only_top threshold top rest :
  order = top :: rest →
  (∀ j, j ≠ top → j < length boxes →
        overlap_test boxes threshold top j = true) →
  spec_suppress order boxes threshold = [top].
Proof.
  intros Heq Htest.
  apply NoDup_only_elem.
  - apply spec_suppress_NoDup.
  - by eapply spec_suppress_top.
  - intros j Hj. destruct (decide (j = top)) as [|Hne]; [done|exfalso].
    pose proof Hj as [Hjn _]%elem_of_spec_suppress.
    destruct (order_elem j Hjn) as (pre & post & Hsplit).
    destruct pre as [|a pre].
    { rewrite Heq in Hsplit. simplify_eq/=. }
    assert (a = top) as -> by (rewrite Heq in Hsplit; by simplify_eq/=).
    pose proof (proj1 (spec_suppress_kept _ _ threshold order_perm
                         _ _ _ Hsplit) Hj top) as Hfalse.
    rewrite Htest in Hfalse by done.
    assert (true = false) as [=]. apply Hfalse.
    + set_solver.
    + by eapply spec_suppress_top.
Qed.

(** Where exactly one box is kept, the first box passes the test against
    every other box. *)
Lemma kept_one_top_tests threshold top rest :
  order = top :: rest →
  length (spec_suppress order boxes threshold) = 1 →
  ∀ j, j ≠ top → j < length boxes →
       overlap_test boxes threshold top j = true.
Proof.
  intros Heq Hone j Hne Hjn.
  pose proof (spec_suppress_top _ _ threshold order_perm _ _ Heq) as Htop.
  assert (∀ x, x ∈ spec_suppress order boxes threshold → x = top) as Honly.
  { revert Hone Htop.
    generalize (spec_suppress order boxes threshold). intros keep Hone Htop.
    destruct keep as [|x [|y l]]; [done| |done].
    apply list_elem_of_singleton in Htop as ->.
    intros x'. apply list_elem_of_singleton. }
  destruct (overlap_test boxes threshold top j) eqn:Ht; [done|exfalso].
  destruct (order_elem j Hjn) as (pre & post & Hsplit).
  apply Hne, Honly.
  apply (spec_suppress_kept _ _ threshold order_perm _ _ _ Hsplit).
  intros i _ Hi. by apply Honly in Hi as ->.
Qed.

(** Where no box passes the test against a box ranked after it, every box
    is kept. *)
Lemma kept_all threshold :
  (∀ pre j post i, order = pre ++ j :: post → i ∈ pre →
                   overlap_test boxes threshold i j = false) →
  spec_suppress order boxes threshold = seq 0 (length boxes).
Proof.
  intros Htest.
  assert (∀ j, j < length boxes → j ∈ spec_suppress order boxes threshold)
    as Hall.
  { intros j Hj. destruct (order_elem j Hj) as (pre & post & Hsplit).
    apply (spec_suppress_kept _ _ threshold order_perm _ _ _ Hsplit).
    intros i Hi _. by eapply Htest. }
  unfold spec_suppress. apply filter_Forall_id, Forall_forall.
  intros j Hj%elem_of_seq.
  by apply (elem_of_spec_suppress boxes order threshold), Hall; lia.
Qed.

(** Where every box is kept, no box passes the test against a box ranked
    after it. *)
Lemma kept_all_tests threshold pre j post i :
  length (spec_suppress order boxes threshold) = length boxes →
  order = pre ++ j :: post → i ∈ pre →
  overlap_test boxes threshold i j = false.
Proof.
  intros Hlen Hsplit Hi.
  assert (∀ x, x ∈ order → x ∈ spec_suppress order boxes threshold) as Hall.
  { intros x Hx%(index_permutation_facts order _ order_perm).
    unfold spec_suppress in *.
    assert (Forall
              (λ i, i ∉ greedy (overlap_test boxes threshold) order ∅)
              (seq 0 (length boxes))) as Hkept.
    { apply (filter_length_Forall
               (λ i, i ∉ greedy (overlap_test boxes threshold) order ∅)).
      by rewrite length_seq. }
    rewrite Forall_forall in Hkept.
    apply list_elem_of_filter. split; [|apply elem_of_seq; lia].
    apply Hkept, elem_of_seq. lia. }
  apply (proj1 (spec_suppress_kept _ _ threshold order_perm _ _ _ Hsplit)).
  - apply Hall. rewrite Hsplit. set_solver.
  - done.
  - apply Hall. rewrite Hsplit. set_solver.
Qed.

(** Two kept boxes: the one ranked first does not pass the test against
    the other. *)
Lemma kept_pair threshold x y :
  x ∈ spec_suppress order boxes threshold →
  y ∈ spec_suppress order boxes threshold → x ≠ y →
  overlap_test boxes threshold x y = false ∨
  overlap_test boxes threshold y x = false.
Proof.
  intros Hx Hy Hne.
  pose proof Hy as [Hyn _]%elem_of_spec_suppress.
  pose proof Hx as [Hxn _]%elem_of_spec_suppress.
  destruct (order_elem y Hyn) as (l1 & l2 & Hsplit).
  assert (x ∈ order) as Hin.
  { by apply (index_permutation_facts order _ order_perm). }
  rewrite Hsplit in Hin.
  apply elem_of_app in Hin as [Hin|Hin].
  - left.
    by apply (proj1 (spec_suppress_kept _ _ threshold order_perm
                       _ _ _ Hsplit) Hy x).
  - right. apply elem_of_cons in Hin as [?|Hin]; [done|].
    apply list_elem_of_split in Hin as (l3 & l4 & ->).
    assert (order = (l1 ++ y :: l3) ++ x :: l4) as Hsplit'.
    { by rewrite Hsplit, <- app_assoc. }
    apply (proj1 (spec_suppress_kept _ _ threshold order_perm
                    _ _ _ Hsplit') Hx y); [|done].
    set_solver.
Qed.

End kept_sets.

(** ** Threshold 0 (C10) *)

Section one_survivor.
Context {F : Type} `{Scalar F}.
Variable sort_descending : list F → list nat.

Lemma nms_cpu_kernel_top_alone dets scores threshold top b_top :
  well_formed_call sort_descending dets scores →
  sort_descending (data scores) !! 0 = Some top →
  data dets !! top = Some b_top →
  (∀ j bj, j ≠ top → data dets !! j = Some bj →
           Fge (ovr b_top bj) (Ffloat threshold) = true) →
  nms_cpu_kernel sort_descending dets scores threshold = Ok [top].
Proof.
  intros Hwf Htop Hbtop Hall. pose proof Hwf as [_ _ _ Hlen Hp].
  destruct (sort_descending (data scores)) as [|top' rest] eqn:Horder;
    simplify_eq/=.
  rewrite nms_cpu_kernel_refines by done. f_equal.
  rewrite Horder. rewrite <- Hlen in Hp.
  apply (kept_only_top _ _ Hp _ top rest eq_refl).
  intros j Hne Hj. unfold overlap_test. rewrite Hbtop.
  destruct (lookup_lt_is_Some_2 _ _ Hj) as [bj Hbj]. rewrite Hbj.
  by apply (Hall j bj).
Qed.


End one_survivor.

(** In exact arithmetic the overlap of two well-formed boxes is not
    negative, and at threshold 0 the first box of the order is the only one
    kept. *)
Section exact.
Local Existing Instance exact_ops.

Lemma exact_overlap_bound (a1 a2 b1 b2 : Q) :
  (a1 <= a2)%Q → (b1 <= b2)%Q →
  let w := std_max 0%Q (std_min a2 b2 - std_max a1 b1 + 1)%Q in
  (0 <= w ∧ w <= a2 - a1 + 1)%Q.
Proof.
  intros Ha Hb. unfold std_max, std_min. simpl.
  destruct (Qle_bool a2 b2) eqn:H1, (Qle_bool b1 a1) eqn:H2; simpl;
    try (apply Qle_bool_iff in H1); try (apply Qle_bool_iff in H2);
    try (assert (¬ (a2 <= b2)%Q) as H1'
           by (intros ?%Qle_bool_iff; congruence));
    try (assert (¬ (b1 <= a1)%Q) as H2'
           by (intros ?%Qle_bool_iff; congruence)).
  all: match goal with
       | |- context [Qle_bool ?x 0] =>
           destruct (Qle_bool x 0) eqn:H3; simpl;
           try (apply Qle_bool_iff in H3);
           try (assert (¬ (x <= 0)%Q) as H3'
                  by (intros ?%Qle_bool_iff; congruence))
       end.
  all: lra.
Qed.

Lemma exact_ratio_nonneg (w h wi hi wj hj : Q) :
  (0 <= w ∧ w <= wi)%Q → (0 <= h ∧ h <= hi)%Q →
  (1 <= wj)%Q → (1 <= hj)%Q →
  (0 <= w * h / (wi * hi + wj * hj - w * h))%Q.
Proof.
  intros [Hw Hwi] [Hh Hhi] Hwj Hhj.
  assert (0 <= w * h)%Q as Hwh by nra.
  assert (0 < wi * hi + wj * hj - w * h)%Q as Hd by nra.
  apply Qle_shift_div_l; [done|]. lra.
Qed.

Lemma exact_ovr_nonneg (bi bj : Box Q) :
  box_well_formed bi → box_well_formed bj →
  Fge (ovr bi bj) (Ffloat zero) = true.
Proof.
  intros [Hix Hiy] [Hjx Hjy]. simpl in *.
  apply Qle_bool_iff in Hix, Hiy, Hjx, Hjy. apply Qle_bool_iff.
  unfold ovr, inter, area. simpl.
  apply exact_ratio_nonneg.
  - by apply exact_overlap_bound.
  - by apply exact_overlap_bound.
  - lra.
  - lra.
Qed.

Lemma exact_one_survivor_at_zero sort_descending dets scores :
  well_formed_call sort_descending dets scores →
  one_survivor_at_zero sort_descending dets scores.
Proof.
  intros Hwf Hne Hboxes. pose proof Hwf as [_ _ _ Hlen Hp].
  rewrite Forall_forall in Hboxes.
  destruct (index_permutation_facts _ _ Hp) as (Hlo & Hbound & _ & _).
  destruct (sort_descending (data scores)) as [|top rest] eqn:Horder.
  { destruct (data dets); simpl in *; [done|lia]. }
  apply Forall_cons in Hbound as [Htop _]. rewrite <- Hlen in Htop.
  destruct (lookup_lt_is_Some_2 _ _ Htop) as [b_top Hbtop].
  exists top. apply (nms_cpu_kernel_top_alone _ _ _ _ top b_top);
    [done|by rewrite Horder|done|].
  intros j bj _ Hbj.
  apply exact_ovr_nonneg; apply Hboxes; by eapply list_elem_of_lookup_2.
Qed.

End exact.



(** ** Two thresholds *)

Section thresholds.
Context {F : Type} `{Scalar F}.
Variable sort_descending : list F → list nat.

(** Let every overlap that reaches [t2] reach [t1]. If the run at [t1] keeps
    every box, so does the run at [t2]; if the run at [t2] keeps one box, so
    does the run at [t1]; hence with at most three boxes the result for [t1]
    has at most as many indices as the result for [t2]. *)
Lemma kept_sizes_at_two_thresholds dets scores t1 t2 :
  well_formed_call sort_descending dets scores →
  (∀ bi bj, bi ∈ data dets → bj ∈ data dets →
            Fge (ovr bi bj) (Ffloat t2) = true →
            Fge (ovr bi bj) (Ffloat t1) = true) →
  ∃ keep1 keep2,
    nms_cpu_kernel sort_descending dets scores t1 = Ok keep1 ∧
    nms_cpu_kernel sort_descending dets scores t2 = Ok keep2 ∧
    (length keep1 = length (data dets) → length keep2 = length (data dets)) ∧
    (length keep2 = 1 → length keep1 = 1) ∧
    (length (data dets) ≤ 3 → length keep1 ≤ length keep2).
Proof.
  intros Hwf Hmono. pose proof Hwf as [_ _ _ Hlen Hp].
  rewrite <- Hlen in Hp.
  set (boxes := data dets) in *.
  set (order := sort_descending (data scores)) in *.
  assert (∀ i j, overlap_test boxes (Ffloat t2) i j = true →
                 overlap_test boxes (Ffloat t1) i j = true) as Htest.
  { intros i j. unfold overlap_test.
    destruct (boxes !! i) as [bi|] eqn:Hbi; [|done].
    destruct (boxes !! j) as [bj|] eqn:Hbj; [|done].
    apply Hmono; by eapply list_elem_of_lookup_2. }
  exists (spec_suppress order boxes (Ffloat t1)),
         (spec_suppress order boxes (Ffloat t2)).
  split; [by apply nms_cpu_kernel_refines|].
  split; [by apply nms_cpu_kernel_refines|].
  assert (length (spec_suppress order boxes (Ffloat t1)) = length boxes →
          length (spec_suppress order boxes (Ffloat t2)) = length boxes)
    as Hfull.
  { intros Hall. rewrite (kept_all boxes order Hp (Ffloat t2)).
    { by rewrite length_seq. }
    intros pre j post i Hsplit Hi.
    destruct (overlap_test boxes (Ffloat t2) i j) eqn:Ht; [|done].
    apply Htest in Ht.
    by rewrite (kept_all_tests boxes order Hp (Ffloat t1) pre j post i)
      in Ht. }
  assert (length (spec_suppress order boxes (Ffloat t2)) = 1 →
          length (spec_suppress order boxes (Ffloat t1)) = 1) as Hone.
  { intros Hone. destruct order as [|top rest] eqn:Horder.
    { pose proof (spec_suppress_length boxes [] (Ffloat t2)) as Hle.
      apply Permutation_length in Hp. rewrite length_seq in Hp.
      simpl in Hp. lia. }
    rewrite (kept_only_top boxes (top :: rest) Hp (Ffloat t1) top rest);
      [done..|].
    intros j Hne Hj. apply Htest.
    by apply (kept_one_top_tests boxes (top :: rest) Hp (Ffloat t2) top rest). }
  split; [done|]. split; [done|]. intros Hthree.
  pose proof (spec_suppress_length boxes order (Ffloat t1)) as Hle1.
  pose proof (spec_suppress_length boxes order (Ffloat t2)) as Hle2.
  destruct order as [|top rest] eqn:Horder.
  { apply Permutation_length in Hp. rewrite length_seq in Hp.
    simpl in Hp. lia. }
  pose proof (spec_suppress_top boxes _ (Ffloat t1) Hp top rest eq_refl)
    as Htop1.
  pose proof (spec_suppress_top boxes _ (Ffloat t2) Hp top rest eq_refl)
    as Htop2.
  destruct (spec_suppress (top :: rest) boxes (Ffloat t1));
    [by apply elem_of_nil in Htop1|].
  destruct (spec_suppress (top :: rest) boxes (Ffloat t2));
    [by apply elem_of_nil in Htop2|].
  simpl in *. lia.
Qed.

End thresholds.

(** ** A second run on the kept boxes *)

Section idempotence.
Context {F : Type} `{Scalar F}.
Variable sort_descending : list F → list nat.

(** Where the overlap test is symmetric, no kept box passes the test against
    another kept box, and a second run with the same threshold on the kept
    boxes and their scores returns every one of them. *)
Lemma rerun_with_symmetric_test dets scores threshold :
  well_formed_call sort_descending dets scores →
  (∀ bi bj, bi ∈ data dets → bj ∈ data dets →
            suppresses (Ffloat threshold) bi bj
            = suppresses (Ffloat threshold) bj bi) →
  ∃ keep,
    nms_cpu_kernel sort_descending dets scores threshold = Ok keep ∧
    (∀ i j bi bj,
       i ∈ keep → j ∈ keep → i ≠ j →
       data dets !! i = Some bi → data dets !! j = Some bj →
       suppresses (Ffloat threshold) bi bj = false) ∧
    (sort_descending (data (index_select scores keep))
       ≡ₚ seq 0 (length keep) →
     nms_cpu_kernel sort_descending (index_select dets keep)
       (index_select scores keep) threshold
     = Ok (seq 0 (length keep))).
Proof.
  intros Hwf Hsym. pose proof Hwf as [Hd Hs Ht Hlen Hp].
  rewrite <- Hlen in Hp.
  set (boxes := data dets) in *.
  set (order := sort_descending (data scores)) in *.
  set (keep := spec_suppress order boxes (Ffloat threshold)).
  assert (∀ i j bi bj,
            i ∈ keep → j ∈ keep → i ≠ j →
            boxes !! i = Some bi → boxes !! j = Some bj →
            suppresses (Ffloat threshold) bi bj = false) as Hpair.
  { intros i j bi bj Hi Hj Hne Hbi Hbj.
    destruct (kept_pair boxes order Hp (Ffloat threshold) i j Hi Hj Hne)
      as [Hfalse|Hfalse];
      unfold overlap_test in Hfalse; rewrite Hbi, Hbj in Hfalse; [done|].
    rewrite Hsym; [done|by eapply list_elem_of_lookup_2..]. }
  assert (Forall (λ i, i < length boxes) keep) as Hbound.
  { apply Forall_forall. by intros i [? _]%elem_of_spec_suppress. }
  exists keep. split; [by apply nms_cpu_kernel_refines|]. split; [done|].
  intros Hp'.
  assert (length (data (index_select dets keep)) = length keep) as Hlen1.
  { by apply omap_lookup_length. }
  assert (length (data (index_select scores keep)) = length keep) as Hlen2.
  { apply omap_lookup_length. by rewrite <- Hlen. }
  rewrite nms_cpu_kernel_refines.
  2:{ split; simpl type; [done..|congruence|by rewrite Hlen2]. }
  f_equal. rewrite <- Hlen1. apply kept_all; [by rewrite Hlen1|].
  intros pre b post a Hsplit Ha.
  assert (a ≠ b) as Hab.
  { eapply (order_split_NoDup (data (index_select dets keep)));
      [|done..]. by rewrite Hlen1. }
  unfold overlap_test.
  destruct (data (index_select dets keep) !! a) as [ba|] eqn:Hba; [|done].
  destruct (data (index_select dets keep) !! b) as [bb|] eqn:Hbb; [|done].
  apply (omap_lookup_lookup boxes keep) in Hba as (i & Hi & Hbi); [|done].
  apply (omap_lookup_lookup boxes keep) in Hbb as (j & Hj & Hbj); [|done].
  apply (Hpair i j); [by eapply list_elem_of_lookup_2..| |done|done].
  intros ->. apply Hab.
  by apply (NoDup_lookup keep a b j (spec_suppress_NoDup _ _ _)).
Qed.

End idempotence.

(** ** IEEE arithmetic: thresholds and symmetry (C3, C4) *)

Lemma SFcompare_antisym a b :
  SFcompare b a = CompOpp <$> SFcompare a b.
Proof.
  destruct a as [sa|sa| |sa ma ea], b as [sb|sb| |sb mb eb]; simpl; try done;
    try (destruct sa; done); try (destruct sb; done);
    try (destruct sa, sb; done).
  destruct sa, sb; simpl; try done.
  - rewrite (Z.compare_antisym ea eb). destruct (ea ?= eb)%Z; simpl; try done.
    do 2 f_equal. symmetry. apply (Pos.compare_cont_antisym ma mb Eq).
  - rewrite (Z.compare_antisym ea eb). destruct (ea ?= eb)%Z; simpl; try done.
    f_equal. symmetry. apply (Pos.compare_cont_antisym ma mb Eq).
Qed.

Lemma SFcompare_Eq a b :
  SFcompare a b = Some Eq → same_value a b.
Proof.
  destruct a as [sa|sa| |sa ma ea], b as [sb|sb| |sb mb eb]; simpl; try done;
    try (destruct sa; done); try (destruct sb; done).
  - intros _. right. eauto.
  - destruct sa, sb; try done; by left.
  - destruct sa, sb; try done;
      destruct (Z.compare_spec ea eb) as [->| |]; try done;
      intros [= Hm]; left; f_equal; apply Pos.compare_eq;
      change (PosDef.Pos.compare_cont Eq ma mb) with (Pos.compare ma mb) in Hm.
    + by destruct (Pos.compare ma mb).
    + done.
Qed.

(** [a <= b] is transitive. *)
Lemma SFleb_trans a b c :
  SFleb a b = true → SFleb b c = true → SFleb a c = true.
Proof.
  unfold SFleb.
  destruct a as [sa|sa| |sa ma ea], b as [sb|sb| |sb mb eb],
    c as [sc|sc| |sc mc ec]; simpl; try done;
    try (destruct sa; done); try (destruct sb; done); try (destruct sc; done);
    try (destruct sa, sb; done); try (destruct sb, sc; done);
    try (destruct sa, sc; done); try (destruct sa, sb, sc; done).
  destruct sa, sb, sc; simpl; try done.
  - destruct (Z.compare_spec ea eb), (Z.compare_spec eb ec),
      (Z.compare_spec ea ec); try done; try lia; subst.
    all: change (PosDef.Pos.compare_cont Eq) with Pos.compare.
    all: try (destruct (Pos.compare_spec ma mb); done).
    all: try (destruct (Pos.compare_spec mb mc); done).
    all: destruct (Pos.compare_spec ma mb), (Pos.compare_spec mb mc),
      (Pos.compare_spec ma mc); try done; lia.
  - destruct (Z.compare_spec ea eb), (Z.compare_spec eb ec),
      (Z.compare_spec ea ec); try done; try lia; subst.
    all: change (PosDef.Pos.compare_cont Eq) with Pos.compare.
    all: try (destruct (Pos.compare_spec ma mb); done).
    all: try (destruct (Pos.compare_spec mb mc); done).
    all: destruct (Pos.compare_spec ma mb), (Pos.compare_spec mb mc),
      (Pos.compare_spec ma mc); try done; lia.
Qed.

Lemma is_nan_true x : is_nan x = true → x = S754_nan.
Proof. by destruct x. Qed.

Lemma box_nan_cases b : box_without_nan b ∨ box_with_nan b.
Proof.
  unfold box_without_nan, box_with_nan.
  destruct (is_nan (bx1 b)), (is_nan (by1 b)), (is_nan (bx2 b)),
    (is_nan (by2 b)); auto 10.
Qed.

Section ieee.
Variables (prec emax : Z) (of_float : spec_float → spec_float).
Variable sort_descending : list spec_float → list nat.

(** In this section [scalar_t] is the format [ieee_ops prec emax of_float]. *)
Local Hint Extern 0 (Scalar spec_float) =>
  exact (ieee_ops prec emax of_float) : typeclass_instances.

Lemma std_max_comm a b :
  is_nan a = false → is_nan b = false →
  same_value (std_max a b) (std_max b a).
Proof.
  intros Ha Hb. unfold std_max. simpl. unfold SFltb.
  rewrite (SFcompare_antisym a b).
  destruct (SFcompare a b) as [[]|] eqn:Hc; simpl; try by left.
  - by apply SFcompare_Eq.
  - by destruct a, b.
Qed.

Lemma std_min_comm a b :
  is_nan a = false → is_nan b = false →
  same_value (std_min a b) (std_min b a).
Proof.
  intros Ha Hb. unfold std_min. simpl. unfold SFltb.
  rewrite (SFcompare_antisym a b).
  destruct (SFcompare a b) as [[]|] eqn:Hc; simpl; try by left.
  - apply SFcompare_Eq in Hc as [->|(s & s' & -> & ->)]; [by left|].
    right. eauto.
  - by destruct a, b.
Qed.

Lemma SFsub_same_value x x' y y' :
  same_value x x' → same_value y y' →
  same_value (SFsub prec emax x y) (SFsub prec emax x' y').
Proof.
  intros [->|(s1 & s1' & -> & ->)] [->|(s2 & s2' & -> & ->)].
  - by left.
  - destruct x' as [s|s| |s m e]; simpl; try by left.
    right. destruct s, s2, s2'; eauto.
  - destruct y' as [s|s| |s m e]; simpl; try by left.
    right. destruct s, s1, s1'; eauto.
  - right. simpl. destruct s1, s2, s1', s2'; eauto.
Qed.

Lemma SFadd_comm x y : SFadd prec emax x y = SFadd prec emax y x.
Proof.
  destruct x as [sx|sx| |sx mx ex], y as [sy|sy| |sy my ey]; simpl; try done;
    try (destruct sx, sy; done).
  by rewrite (Z.min_comm ey ex), Z.add_comm.
Qed.

(** C3, as the code has it, in every IEEE format: let [t1 <= t2]. If the
    run at [t1] keeps every box, so does the run at [t2]; if the run at [t2]
    keeps one box, so does the run at [t1]; hence with at most three boxes
    the result for [t1] has at most as many indices as the result for
    [t2]. *)
Theorem kept_size_monotone_up_to_three_boxes dets scores t1 t2 :
  well_formed_call sort_descending dets scores →
  SFleb (of_float t1) (of_float t2) = true →
  ∃ keep1 keep2,
    nms_cpu_kernel sort_descending dets scores t1 = Ok keep1 ∧
    nms_cpu_kernel sort_descending dets scores t2 = Ok keep2 ∧
    (length keep1 = length (data dets) → length keep2 = length (data dets)) ∧
    (length keep2 = 1 → length keep1 = 1) ∧
    (length (data dets) ≤ 3 → length keep1 ≤ length keep2).
Proof.
  intros Hwf Hle.
  apply (kept_sizes_at_two_thresholds (H := ieee_ops prec emax of_float)
           sort_descending dets scores t1 t2 Hwf).
  intros bi bj _ _ Hge. cbn [Fge Ffloat ieee_ops] in *.
  by eapply SFleb_trans.
Qed.

(** The format holds the number 1. *)
Hypothesis one_finite : ∃ m e, SFone prec emax = S754_finite false m e.

Lemma SFadd_one_same_value z z' :
  same_value z z' → Fadd z F1 = Fadd z' F1.
Proof.
  destruct one_finite as (m & e & Hone).
  intros [->|(s & s' & -> & ->)]; [done|].
  simpl. by rewrite Hone.
Qed.

Lemma inter_comm bi bj :
  box_without_nan bi → box_without_nan bj → inter bi bj = inter bj bi.
Proof.
  intros (Hi1 & Hi2 & Hi3 & Hi4) (Hj1 & Hj2 & Hj3 & Hj4).
  unfold inter.
  rewrite (SFadd_one_same_value
             (Fsub (std_min (bx2 bi) (bx2 bj)) (std_max (bx1 bi) (bx1 bj)))
             (Fsub (std_min (bx2 bj) (bx2 bi)) (std_max (bx1 bj) (bx1 bi)))).
  2:{ apply SFsub_same_value; [by apply std_min_comm|by apply std_max_comm]. }
  rewrite (SFadd_one_same_value
             (Fsub (std_min (by2 bi) (by2 bj)) (std_max (by1 bi) (by1 bj)))
             (Fsub (std_min (by2 bj) (by2 bi)) (std_max (by1 bj) (by1 bi)))).
  2:{ apply SFsub_same_value; [by apply std_min_comm|by apply std_max_comm]. }
  done.
Qed.

(** On boxes without NaN the overlap does not depend on which of the two
    boxes is the reference box. *)
Lemma ovr_comm bi bj :
  box_without_nan bi → box_without_nan bj → ovr bi bj = ovr bj bi.
Proof.
  intros Hi Hj. unfold ovr. rewrite (inter_comm bi bj) by done.
  do 2 f_equal. apply SFadd_comm.
Qed.

Lemma SFadd_nan_l x : SFadd prec emax S754_nan x = S754_nan.
Proof. done. Qed.

Lemma SFadd_nan_r x : SFadd prec emax x S754_nan = S754_nan.
Proof. by destruct x as [[]|[]| |[]]. Qed.

Lemma SFsub_nan_l x : SFsub prec emax S754_nan x = S754_nan.
Proof. done. Qed.

Lemma SFsub_nan_r x : SFsub prec emax x S754_nan = S754_nan.
Proof. by destruct x as [[]|[]| |[]]. Qed.

Lemma SFmul_nan_l x : SFmul prec emax S754_nan x = S754_nan.
Proof. done. Qed.

Lemma SFmul_nan_r x : SFmul prec emax x S754_nan = S754_nan.
Proof. by destruct x as [[]|[]| |[]]. Qed.

Lemma SFdiv_nan_r x : SFdiv prec emax x S754_nan = S754_nan.
Proof. by destruct x as [[]|[]| |[]]. Qed.

(** A NaN coordinate makes the area NaN. *)
Lemma area_nan b : box_with_nan b → area b = S754_nan.
Proof.
  unfold area. cbn [Fadd Fsub Fmul ieee_ops].
  intros [Hn|[Hn|[Hn|Hn]]]; apply is_nan_true in Hn; rewrite Hn.
  - by rewrite SFsub_nan_r, SFadd_nan_l, SFmul_nan_l.
  - by rewrite SFsub_nan_r, SFadd_nan_l, SFmul_nan_r.
  - by rewrite SFsub_nan_l, SFadd_nan_l, SFmul_nan_l.
  - by rewrite SFsub_nan_l, SFadd_nan_l, SFmul_nan_r.
Qed.

(** A NaN area makes the overlap NaN. *)
Lemma ovr_nan bi bj :
  is_nan (area bi) = true ∨ is_nan (area bj) = true → ovr bi bj = S754_nan.
Proof.
  unfold ovr. cbn [Fadd Fsub Fdiv ieee_ops].
  intros [Hn|Hn]; apply is_nan_true in Hn; rewrite Hn.
  - by rewrite SFadd_nan_l, SFsub_nan_l, SFdiv_nan_r.
  - by rewrite SFadd_nan_r, SFsub_nan_l, SFdiv_nan_r.
Qed.

(** The overlap does not depend on which of the two boxes is the reference
    box, whatever the coordinates: with a NaN among them it is NaN either
    way. *)
Lemma ovr_comm_all (bi bj : Box spec_float) : ovr bi bj = ovr bj bi.
Proof.
  destruct (box_nan_cases bi) as [Hi|Hi], (box_nan_cases bj) as [Hj|Hj].
  - by apply ovr_comm.
  - rewrite !ovr_nan; [done|left|right]; by rewrite area_nan.
  - rewrite !ovr_nan; [done|right|left]; by rewrite area_nan.
  - rewrite !ovr_nan; [done|left|right]; by rewrite area_nan.
Qed.

(** C4, in every IEEE format that holds 1: on every input, NaN coordinates
    included, no kept box has [ovr >= threshold] against another kept box,
    and a second run with the same threshold on the kept boxes and their
    scores returns every one of them. *)
Theorem rerun_on_kept_boxes_returns_them_all dets scores threshold :
  well_formed_call sort_descending dets scores →
  ∃ keep,
    nms_cpu_kernel sort_descending dets scores threshold = Ok keep ∧
    (∀ i j bi bj,
       i ∈ keep → j ∈ keep → i ≠ j →
       data dets !! i = Some bi → data dets !! j = Some bj →
       Fge (ovr bi bj) (of_float threshold) = false) ∧
    (sort_descending (data (index_select scores keep))
       ≡ₚ seq 0 (length keep) →
     nms_cpu_kernel sort_descending (index_select dets keep)
       (index_select scores keep) threshold
     = Ok (seq 0 (length keep))).
Proof.
  intros Hwf.
  apply (rerun_with_symmetric_test (H := ieee_ops prec emax of_float)
           sort_descending dets scores threshold Hwf).
  intros bi bj _ _. unfold suppresses. by rewrite (ovr_comm_all bi bj).
Qed.

End ieee.

Lemma kept_size_monotone_up_to_three_boxes_witness :
  ∃ keep1 keep2,
    nms_cpu_kernel_float sort_float (float_tensor (scenario_boxes Z2F32))
      (float_tensor (scenario_scores Q2F32)) three_eighths = Ok keep1 ∧
    nms_cpu_kernel_float sort_float (float_tensor (scenario_boxes Z2F32))
      (float_tensor (scenario_scores Q2F32)) half = Ok keep2 ∧
    (length keep1 = 3 → length keep2 = 3) ∧
    (length keep2 = 1 → length keep1 = 1) ∧
    (3 ≤ 3 → length keep1 ≤ length keep2).
Proof.
  refine (kept_size_monotone_up_to_three_boxes 24 128 (λ x, x) sort_float
            (float_tensor (scenario_boxes Z2F32))
            (float_tensor (scenario_scores Q2F32)) three_eighths half
            scenario_float_well_formed _).
  vm_compute. reflexivity.
Defined.

(** C3, as it is stated, fails with four boxes: a strip (index 0) over a
    square (index 1) and the two halves of the square (indices 2 and 3),
    scores 4, 3, 2, 1. At threshold 0.375 the strip flags the square and
    three boxes are kept; at threshold 0.5 the square is kept and flags its
    two halves, and two boxes are kept. *)
Lemma kept_size_not_monotone :
  well_formed_call sort_float (float_tensor strip_boxes)
    (float_tensor strip_scores) ∧
  SFleb zero three_eighths = true ∧ SFleb three_eighths half = true ∧
  SFleb half (Z2F32 1) = true ∧
  nms_cpu_kernel_float sort_float (float_tensor strip_boxes)
    (float_tensor strip_scores) three_eighths = Ok [0; 2; 3] ∧
  nms_cpu_kernel_float sort_float (float_tensor strip_boxes)
    (float_tensor strip_scores) half = Ok [0; 1] ∧
  ¬ kept_size_monotone (H := binary32_ops) sort_float
      (float_tensor strip_boxes) (float_tensor strip_scores)
      three_eighths half.
Proof.
  assert (nms_cpu_kernel_float sort_float (float_tensor strip_boxes)
            (float_tensor strip_scores) three_eighths = Ok [0; 2; 3]) as H1.
  { vm_compute. reflexivity. }
  assert (nms_cpu_kernel_float sort_float (float_tensor strip_boxes)
            (float_tensor strip_scores) half = Ok [0; 1]) as H2.
  { vm_compute. reflexivity. }
  split_and!; [|vm_compute; reflexivity..|exact H1|exact H2|].
  - split; [reflexivity..|]. apply (bool_decide_unpack _).
    vm_compute. reflexivity.
  - intros Hmono. specialize (Hmono _ _ H1 H2). simpl in Hmono. lia.
Qed.

Lemma rerun_on_kept_boxes_returns_them_all_witness :
  nms_cpu_kernel_float sort_float
    (index_select (float_tensor (scenario_boxes Z2F32)) [0; 2])
    (index_select (float_tensor (scenario_scores Q2F32)) [0; 2]) half
  = Ok [0; 1] ∧
  nms_cpu_kernel_float sort_float
    (index_select (float_tensor scenario_with_nan) [0; 1; 2])
    (index_select (float_tensor (scenario_scores Q2F32)) [0; 1; 2]) half
  = Ok [0; 1; 2].
Proof.
  pose proof (rerun_on_kept_boxes_returns_them_all 24 128 (λ x, x)
                sort_float (ex_intro _ _ (ex_intro _ _ eq_refl))) as Hrerun.
  split.
  - destruct (Hrerun (float_tensor (scenario_boxes Z2F32))
                (float_tensor (scenario_scores Q2F32)) half
                scenario_float_well_formed)
      as (keep & Hrun & _ & Hagain).
    assert (nms_cpu_kernel_float sort_float
              (float_tensor (scenario_boxes Z2F32))
              (float_tensor (scenario_scores Q2F32)) half = Ok [0; 2])
      as Hkeep.
    { vm_compute. reflexivity. }
    unfold nms_cpu_kernel_float, binary32_ops in Hkeep.
    rewrite Hkeep in Hrun. injection Hrun as <-.
    apply Hagain. apply (bool_decide_unpack _). vm_compute. reflexivity.
  - destruct (Hrerun (float_tensor scenario_with_nan)
                (float_tensor (scenario_scores Q2F32)) half)
      as (keep & Hrun & _ & Hagain).
    { split; [reflexivity..|]. apply insertion_argsort_Permutation. }
    assert (nms_cpu_kernel_float sort_float (float_tensor scenario_with_nan)
              (float_tensor (scenario_scores Q2F32)) half = Ok [0; 1; 2])
      as Hkeep.
    { vm_compute. reflexivity. }
    unfold nms_cpu_kernel_float, binary32_ops in Hkeep.
    rewrite Hkeep in Hrun. injection Hrun as <-.
    apply Hagain. apply (bool_decide_unpack _). vm_compute. reflexivity.
Defined.

(** ** Reads inside the buffers *)

Lemma for_loop_ext {St} (body body' : nat → St → outcome St) count k s :
  (∀ k' s', k ≤ k' < k + count → body k' s' = body' k' s') →
  for_loop count k body s = for_loop count k body' s.
Proof.
  revert k s. induction count as [|count IH]; intros k s Hext; simpl; [done|].
  rewrite Hext by lia. destruct (body' k s) as [s1| |]; simpl; [|done..].
  apply IH. intros k' s' Hk'. apply Hext. lia.
Qed.

(** Every iteration of a loop that returns has returned, from a state that
    satisfies what the iterations keep. *)
Lemma for_loop_iterations {St} (P : St → Prop) body count lo (s s' : St) :
  (∀ k s s', P s → body k s = Ok s' → P s') →
  P s → for_loop count lo body s = Ok s' →
  ∀ k, lo ≤ k < lo + count → ∃ s1 s2, P s1 ∧ body k s1 = Ok s2.
Proof.
  intros Hbody. revert lo s.
  induction count as [|count IH]; intros lo s Hs Hrun k Hk; [lia|].
  simpl in Hrun. apply bind_Ok in Hrun as (s1 & Hstep & Hrun).
  destruct (decide (k = lo)) as [->|Hne]; [by eauto|].
  apply (IH (S lo) s1); [by eauto|done|lia].
Qed.

Section bounds.
Context {F : Type} `{Scalar F}.
Variable sort_descending : list F → list nat.

Lemma inner_body_order_ext order order' x1 y1 x2 y2 areas threshold
    ix1 iy1 ix2 iy2 iarea k s :
  order !! k = order' !! k →
  inner_body order x1 y1 x2 y2 areas threshold ix1 iy1 ix2 iy2 iarea k s
  = inner_body order' x1 y1 x2 y2 areas threshold ix1 iy1 ix2 iy2 iarea k s.
Proof. intros Hk. unfold inner_body, read. by rewrite Hk. Qed.

Lemma outer_body_order_ext ndets order order' x1 y1 x2 y2 areas threshold
    k s :
  (∀ k', k' < ndets → order !! k' = order' !! k') → k < ndets →
  outer_body ndets order x1 y1 x2 y2 areas threshold k s
  = outer_body ndets order' x1 y1 x2 y2 areas threshold k s.
Proof.
  intros Hext Hk. unfold outer_body.
  assert (read order k = read order' k) as ->.
  { unfold read. by rewrite (Hext k Hk). }
  destruct (read order' k) as [i| |]; simpl; [|done..].
  destruct (read s i) as [si| |]; simpl; [|done..].
  destruct (si =? 1)%Z; [done|].
  destruct (read x1 i) as [ix1| |]; simpl; [|done..].
  destruct (read y1 i) as [iy1| |]; simpl; [|done..].
  destruct (read x2 i) as [ix2| |]; simpl; [|done..].
  destruct (read y2 i) as [iy2| |]; simpl; [|done..].
  destruct (read areas i) as [iarea| |]; simpl; [|done..].
  unfold for_range. apply for_loop_ext. intros k' s' Hk'.
  apply inner_body_order_ext, Hext. lia.
Qed.

(** An iteration of the outer loop that returns has read a position of
    [order] and found a flag at the index it holds. *)
Lemma outer_body_Ok_bound ndets order x1 y1 x2 y2 areas threshold k s s' :
  outer_body ndets order x1 y1 x2 y2 areas threshold k s = Ok s' →
  ∃ i, order !! k = Some i ∧ i < length s.
Proof.
  unfold outer_body. intros Hrun.
  apply bind_Ok in Hrun as (i & Hi%read_Ok & Hrun).
  apply bind_Ok in Hrun as (si & Hsi%read_Ok & _).
  exists i. split; [done|]. by eapply lookup_lt_Some.
Qed.

Lemma suppression_loop_in_bounds boxes scores threshold :
  order_in_bounds (sort_descending scores) (length boxes) →
  suppression_loop sort_descending boxes scores threshold
  = Ok (flags (length boxes)
          (greedy (overlap_test boxes (Ffloat threshold))
             (take (length boxes) (sort_descending scores)) ∅)).
Proof.
  intros Hb. set (order := sort_descending scores) in *.
  set (n := length boxes) in *.
  assert (length (take n order) = n) as Hlen.
  { rewrite length_take. destruct n as [|n]; [done|].
    destruct (Hb n) as (i & Hi & _); [lia|].
    apply lookup_lt_Some in Hi. lia. }
  assert (Forall (λ i, i < n) (take n order)) as Hbound.
  { apply Forall_forall. intros i (k & Hk)%list_elem_of_lookup_1.
    apply lookup_take_Some in Hk as [Hk Hkn].
    destruct (Hb k Hkn) as (i' & Hi' & ?). congruence. }
  unfold suppression_loop, for_range. fold order. fold n.
  rewrite areas_of_boxes, <- flags_empty, Nat.sub_0_r.
  rewrite (for_loop_ext _
             (outer_body n (take n order) (bx1 <$> boxes) (by1 <$> boxes)
                (bx2 <$> boxes) (by2 <$> boxes) (area <$> boxes) threshold)).
  2:{ intros k s Hk. apply outer_body_order_ext; [|lia].
      intros k' Hk'. by rewrite lookup_take_lt. }
  rewrite (outer_loop_greedy boxes _ threshold Hlen Hbound) by lia.
  by rewrite drop_0.
Qed.

Lemma suppression_loop_Ok_in_bounds boxes scores threshold suppressed :
  suppression_loop sort_descending boxes scores threshold = Ok suppressed →
  order_in_bounds (sort_descending scores) (length boxes).
Proof.
  unfold suppression_loop, for_range. intros Hrun k Hk.
  destruct (for_loop_iterations (λ s, length s = length boxes) _ _ _ _ _
              (λ k' s s' Hs Hstep,
                 eq_trans (proj1 (outer_body_le _ _ _ _ _ _ _ _ _ _ _ Hstep))
                   Hs)
              (length_replicate _ _) Hrun k)
    as (s1 & s2 & Hlen & Hstep); [lia|].
  apply outer_body_Ok_bound in Hstep as (i & Hi & Hlt).
  exists i. split; [done|]. by rewrite <- Hlen.
Qed.

(** X1: on CPU tensors of one type and at least one box, the kernel returns
    exactly when the first N entries of the order that [sort] gives exist and
    are indices below N, N being the number of boxes; it then returns the
    greedy suppression along these N entries. Otherwise a loop reads outside
    a buffer; so it does when [sort] gives fewer than N indices. *)
Theorem kernel_returns_iff_order_in_bounds dets scores threshold :
  is_cuda (type dets) = false → is_cuda (type scores) = false →
  type dets = type scores → data dets ≠ [] →
  let order := sort_descending (data scores) in
  let n := length (data dets) in
  (order_in_bounds order n →
   nms_cpu_kernel sort_descending dets scores threshold
   = Ok (spec_suppress (take n order) (data dets) (Ffloat threshold))) ∧
  (¬ order_in_bounds order n →
   nms_cpu_kernel sort_descending dets scores threshold = Undefined) ∧
  (length order < n →
   nms_cpu_kernel sort_descending dets scores threshold = Undefined).
Proof.
  intros Hd Hs Ht Hne order n.
  assert ((numel dets =? 0) = false) as Hnumel.
  { apply Nat.eqb_neq. unfold numel. destruct (data dets); [done|simpl; lia]. }
  assert (¬ order_in_bounds order n →
          nms_cpu_kernel sort_descending dets scores threshold = Undefined)
    as Hundef.
  { intros Hout. rewrite nms_cpu_kernel_unfold, Hnumel by done.
    pose proof (never_throws_suppression_loop sort_descending (data dets)
                  (data scores) threshold) as Hnever.
    destruct (suppression_loop sort_descending (data dets) (data scores)
                threshold) as [suppressed|msg|] eqn:Hloop; [| |done].
    - by apply suppression_loop_Ok_in_bounds in Hloop.
    - by destruct (Hnever msg). }
  split_and!; [|done|].
  - intros Hin. rewrite nms_cpu_kernel_unfold, Hnumel by done.
    rewrite suppression_loop_in_bounds by done. simpl.
    by rewrite nonzero_flags.
  - intros Hshort. apply Hundef. intros Hin.
    destruct (Hin (length order)) as (i & Hi%lookup_lt_Some & _); [done|lia].
Qed.

End bounds.

Lemma kernel_returns_iff_order_in_bounds_witness :
  nms_cpu_kernel_float sort_float
    (float_tensor [box_of Z2F32 0 0 10 10; box_of Z2F32 1 1 11 11])
    (float_tensor [Q2F32 9 10; Q2F32 8 10; Q2F32 1 10]) half = Ok [0] ∧
  nms_cpu_kernel_float sort_float (float_tensor (scenario_boxes Z2F32))
    (float_tensor [Q2F32 9 10]) half = Undefined.
Proof.
  split.
  - pose proof (@kernel_returns_iff_order_in_bounds spec_float binary32_ops
                  sort_float
                  (float_tensor [box_of Z2F32 0 0 10 10; box_of Z2F32 1 1 11 11])
                  (float_tensor [Q2F32 9 10; Q2F32 8 10; Q2F32 1 10]) half
                  eq_refl eq_refl eq_refl) as Hrun.
    destruct Hrun as (Hin & _ & _); [discriminate|].
    etransitivity; [apply Hin|vm_compute; reflexivity].
    intros k Hk. change (k < 2) in Hk.
    destruct k as [|[|k]]; [exists 0|exists 1|lia];
      (split; [vm_compute; reflexivity|vm_compute; lia]).
  - pose proof (@kernel_returns_iff_order_in_bounds spec_float binary32_ops
                  sort_float (float_tensor (scenario_boxes Z2F32))
                  (float_tensor [Q2F32 9 10]) half
                  eq_refl eq_refl eq_refl) as Hrun.
    destruct Hrun as (_ & _ & Hshort); [discriminate|].
    apply Hshort. vm_compute. lia.
Defined.

(** ** The entry point [nms_cpu] *)

Section throws.
Context {F : Type} `{Scalar F}.
Variable sort_descending : list F → list nat.

Lemma nms_cpu_kernel_throws dets scores threshold :
  (∃ msg, nms_cpu_kernel sort_descending dets scores threshold = Throw msg) ↔
  is_cuda (type dets) = true ∨ is_cuda (type scores) = true ∨
  type dets ≠ type scores.
Proof.
  destruct (is_cuda (type dets)) eqn:Hd.
  { split; [by left|]. intros _. unfold nms_cpu_kernel. rewrite Hd. eauto. }
  destruct (is_cuda (type scores)) eqn:Hs.
  { split; [by right; left|]. intros _. unfold nms_cpu_kernel.
    rewrite Hd, Hs. eauto. }
  destruct (decide (type dets = type scores)) as [Ht|Ht].
  - split; [|by intros [?|[?|?]]]. intros [msg Hmsg]. exfalso.
    rewrite nms_cpu_kernel_unfold in Hmsg by done.
    destruct (numel dets =? 0); [done|].
    pose proof (never_throws_suppression_loop sort_descending (data dets)
                  (data scores) threshold) as Hnever.
    destruct (suppression_loop sort_descending (data dets) (data scores)
                threshold) as [suppressed|msg'|]; [done| |done].
    by destruct (Hnever msg').
  - split; [by right; right|]. intros _. unfold nms_cpu_kernel.
    rewrite Hd, Hs. simpl. rewrite bool_decide_false by done. eauto.
Qed.

End throws.

Lemma nms_cpu_dispatch sort_descending dets scores threshold :
  is_floating (scalar_type (type dets)) = true →
  nms_cpu sort_descending dets scores threshold
  = @nms_cpu_kernel spec_float (arithmetic_of (scalar_type (type dets)))
      sort_descending dets scores threshold.
Proof.
  unfold nms_cpu, AT_DISPATCH_FLOATING_TYPES.
  by destruct (scalar_type (type dets)).
Qed.

(** X2: [nms_cpu] throws exactly when the scalar type of [dets] is not
    [float] or [double], or [dets] or [scores] is a CUDA tensor, or the two
    tensors differ in type. The scalar type is looked at first: on another
    scalar type the error is the dispatcher's, whatever the tensors are. *)
Theorem nms_cpu_throws sort_descending dets scores threshold :
  (is_floating (scalar_type (type dets)) = false →
   nms_cpu sort_descending dets scores threshold
   = Throw (not_implemented "nms")) ∧
  ((∃ msg, nms_cpu sort_descending dets scores threshold = Throw msg) ↔
   is_floating (scalar_type (type dets)) = false ∨
   is_cuda (type dets) = true ∨ is_cuda (type scores) = true ∨
   type dets ≠ type scores).
Proof.
  assert (is_floating (scalar_type (type dets)) = false →
          nms_cpu sort_descending dets scores threshold
          = Throw (not_implemented "nms")) as Hother.
  { unfold nms_cpu, AT_DISPATCH_FLOATING_TYPES.
    by destruct (scalar_type (type dets)). }
  split; [done|].
  destruct (is_floating (scalar_type (type dets))) eqn:Hfl.
  - rewrite nms_cpu_dispatch by done. rewrite nms_cpu_kernel_throws.
    split; [auto|]. by intros [?|?].
  - split; [by left|]. intros _. rewrite Hother by done. eauto.
Qed.

Lemma nms_cpu_throws_witness :
  nms_cpu sort_float
    {| type := {| is_cuda := true; scalar_type := Long |};
       data := scenario_boxes Z2F32 |}
    (float_tensor (scenario_scores Q2F32)) half
  = Throw (not_implemented "nms").
Proof.
  exact (proj1 (nms_cpu_throws sort_float
                  {| type := {| is_cuda := true; scalar_type := Long |};
                     data := scenario_boxes Z2F32 |}
                  (float_tensor (scenario_scores Q2F32)) half) eq_refl).
Defined.

(** X3: on CPU tensors of one floating type with one score per box,
    [nms_cpu] returns what the kernel computes in the arithmetic of that
    type: [float] for a [float] tensor, [double], with the threshold
    converted, for a [double] tensor. The result is in ascending order, holds
    indices below N only, is empty exactly when there is no box, and holds
    the first index of the order. *)
Theorem nms_cpu_returns sort_descending dets scores threshold :
  well_formed_call sort_descending dets scores →
  is_floating (scalar_type (type dets)) = true →
  ∃ keep,
    nms_cpu sort_descending dets scores threshold = Ok keep ∧
    keep = spec_suppress (H := arithmetic_of (scalar_type (type dets)))
             (sort_descending (data scores)) (data dets)
             (Ffloat (Scalar := arithmetic_of (scalar_type (type dets)))
                threshold) ∧
    StronglySorted lt keep ∧
    (∀ i, i ∈ keep → i < length (data dets)) ∧
    (keep = [] ↔ data dets = []) ∧
    (∀ top, sort_descending (data scores) !! 0 = Some top → top ∈ keep).
Proof.
  intros Hwf Hfl. eexists. split.
  { rewrite nms_cpu_dispatch by done. by apply nms_cpu_kernel_refines. }
  split; [done|].
  pose proof Hwf as [_ _ _ Hlen Hp]. rewrite <- Hlen in Hp.
  split_and!.
  - by apply spec_suppress_sorted.
  - by intros i [? _]%elem_of_spec_suppress.
  - split.
    + intros Hnil. destruct (sort_descending (data scores)) as [|top rest]
        eqn:Horder.
      * apply Permutation_length in Hp. rewrite length_seq in Hp.
        symmetry in Hp. by apply nil_length_inv.
      * pose proof (spec_suppress_top
                      (H := arithmetic_of (scalar_type (type dets))) _ _
                      (Ffloat (Scalar := arithmetic_of
                                 (scalar_type (type dets))) threshold)
                      Hp top rest eq_refl) as Htop.
        rewrite Hnil in Htop. by apply elem_of_nil in Htop.
    + intros Hnil. unfold spec_suppress. by rewrite Hnil.
  - intros top Htop.
    destruct (sort_descending (data scores)) as [|top' rest] eqn:Horder;
      simplify_eq/=.
    by eapply spec_suppress_top.
Qed.

Lemma nms_cpu_returns_witness :
  ∃ keep,
    nms_cpu sort_double (double_tensor (scenario_boxes Z2F64))
      (double_tensor (scenario_scores Q2F64)) half = Ok keep ∧
    keep = [0; 2].
Proof.
  destruct (nms_cpu_returns sort_double (double_tensor (scenario_boxes Z2F64))
              (double_tensor (scenario_scores Q2F64)) half)
    as (keep & Hrun & Hkeep & _).
  - split; [reflexivity..|]. apply insertion_argsort_Permutation.
  - reflexivity.
  - exists keep. split; [exact Hrun|]. rewrite Hkeep. vm_compute. reflexivity.
Defined.

(** ** NaN, and boxes that do not overlap *)

Lemma SFleb_nan_r x : SFleb x S754_nan = false.
Proof. by destruct x as [[]|[]| |[]]. Qed.

(** [x <= x], unless [x] is NaN. *)
Lemma SFleb_refl x : is_nan x = false → SFleb x x = true.
Proof.
  unfold SFleb. destruct x as [[]|[]| |[] m e]; simpl; try done; intros _.
  - rewrite Z.compare_refl.
    change (PosDef.Pos.compare_cont Eq m m) with (Pos.compare m m).
    by rewrite Pos.compare_refl.
  - rewrite Z.compare_refl.
    change (PosDef.Pos.compare_cont Eq m m) with (Pos.compare m m).
    by rewrite Pos.compare_refl.
Qed.

Section ieee_nan.
Variables (prec emax : Z) (of_float : spec_float → spec_float).
Variable sort_descending : list spec_float → list nat.

(** In this section [scalar_t] is the format [ieee_ops prec emax of_float]. *)
Local Hint Extern 0 (Scalar spec_float) =>
  exact (ieee_ops prec emax of_float) : typeclass_instances.

(** X4: in every IEEE format, a box with a NaN coordinate has a NaN area,
    and the overlap of a box whose area is NaN with any box, either of them
    the reference box, is NaN, which is not [>=] any threshold: the kernel
    keeps such a box, and the box flags no other. *)
Theorem box_with_nan_area_is_kept dets scores threshold j bj :
  well_formed_call sort_descending dets scores →
  data dets !! j = Some bj →
  box_with_nan bj ∨ is_nan (area bj) = true →
  is_nan (area bj) = true ∧
  (∀ bi, Fge (ovr bj bi) (of_float threshold) = false ∧
         Fge (ovr bi bj) (of_float threshold) = false) ∧
  ∃ keep,
    nms_cpu_kernel sort_descending dets scores threshold = Ok keep ∧
    j ∈ keep.
Proof.
  intros Hwf Hbj Hnan.
  assert (is_nan (area bj) = true) as Harea.
  { destruct Hnan as [Hnan|Hnan]; [|done]. by rewrite area_nan. }
  assert (∀ bi, Fge (ovr bj bi) (of_float threshold) = false ∧
                Fge (ovr bi bj) (of_float threshold) = false) as Hovr.
  { intros bi. cbn [Fge ieee_ops].
    rewrite !ovr_nan by auto. by rewrite SFleb_nan_r. }
  split; [done|]. split; [done|].
  eexists. split; [by apply nms_cpu_kernel_refines|].
  pose proof Hwf as [_ _ _ Hlen Hp]. rewrite <- Hlen in Hp.
  destruct (order_elem _ _ Hp j) as (pre & post & Hsplit).
  { by eapply lookup_lt_Some. }
  apply (spec_suppress_kept _ _ _ Hp pre j post Hsplit).
  intros i _ _. unfold overlap_test. rewrite Hbj.
  destruct (data dets !! i) as [bi|]; [|done].
  apply Hovr.
Qed.

(** No overlap is [>=] a NaN threshold. *)
Lemma nms_cpu_kernel_nan_threshold dets scores threshold :
  well_formed_call sort_descending dets scores →
  of_float threshold = S754_nan →
  nms_cpu_kernel sort_descending dets scores threshold
  = Ok (seq 0 (length (data dets))).
Proof.
  intros Hwf Hnan. rewrite nms_cpu_kernel_refines by done. f_equal.
  pose proof Hwf as [_ _ _ Hlen Hp]. rewrite <- Hlen in Hp.
  apply kept_all; [done|]. intros pre j post i _ _.
  unfold overlap_test.
  destruct (data dets !! i) as [bi|]; [|done].
  destruct (data dets !! j) as [bj|]; [|done].
  unfold suppresses. cbn [Fge Ffloat ieee_ops]. by rewrite Hnan.
Qed.

(** [std::max(0, x)] is 0, or [x] where [x] is greater than 0; never NaN. *)
Lemma clamp_cases x :
  std_max F0 x = S754_zero false ∨
  (std_max F0 x = x ∧
   (x = S754_infinity false ∨ ∃ m e, x = S754_finite false m e)).
Proof.
  unfold std_max. cbn [Flt F0 ieee_ops].
  destruct x as [[]|[]| |[] m e]; simpl; try (by left);
    right; (split; [done|]); eauto.
Qed.

Lemma binary_round_aux_not_negative m e l :
  SFltb (binary_round_aux prec emax false m e l) (S754_zero false) = false.
Proof.
  unfold binary_round_aux.
  destruct (shr_fexp prec emax m e l) as [mrs' e'].
  destruct (shr_fexp prec emax _ e' loc_Exact) as [mrs'' e''].
  destruct (shr_m mrs''); [done| |done].
  by destruct (e'' <=? emax - prec)%Z.
Qed.

(** X5: in every IEEE format, [w] and [h] are never NaN and never less
    than 0, whatever the coordinates: [std::max(0, x)] is 0 where [x] is NaN.
    And [inter], their rounded product, is never less than 0. *)
Theorem intersection_is_never_negative (bi bj : Box spec_float) :
  let w := std_max F0 (overlap_width bi bj) in
  let h := std_max F0 (overlap_height bi bj) in
  inter bi bj = Fmul w h ∧
  is_nan w = false ∧ SFltb w (S754_zero false) = false ∧
  is_nan h = false ∧ SFltb h (S754_zero false) = false ∧
  SFltb (inter bi bj) (S754_zero false) = false.
Proof.
  intros w h. split; [done|].
  change (inter bi bj) with (SFmul prec emax w h). subst w h.
  destruct (clamp_cases (overlap_width bi bj))
    as [->|[-> [->|(m & e & ->)]]];
    destruct (clamp_cases (overlap_height bi bj))
      as [->|[-> [->|(m' & e' & ->)]]];
    split_and!; try done; apply binary_round_aux_not_negative.
Qed.







(** X7: in every IEEE format, an overlap equal to the threshold counts: a
    box whose [ovr] against a kept box ranked before it is the threshold
    itself, not NaN, is dropped. *)
Theorem overlap_equal_to_threshold_suppresses
    dets scores threshold pre j post i bi bj :
  well_formed_call sort_descending dets scores →
  sort_descending (data scores) = pre ++ j :: post → i ∈ pre →
  data dets !! i = Some bi → data dets !! j = Some bj →
  ovr bi bj = of_float threshold → is_nan (of_float threshold) = false →
  ∃ keep,
    nms_cpu_kernel sort_descending dets scores threshold = Ok keep ∧
    (i ∈ keep → j ∉ keep).
Proof.
  intros Hwf Hsplit Hi Hbi Hbj Hovr Hnan.
  eexists. split; [by apply nms_cpu_kernel_refines|].
  pose proof Hwf as [_ _ _ Hlen Hp]. rewrite <- Hlen in Hp.
  intros Hkept Hj.
  pose proof (proj1 (spec_suppress_kept _ _ _ Hp pre j post Hsplit) Hj
                i Hi Hkept) as Htest.
  unfold overlap_test in Htest. rewrite Hbi, Hbj in Htest.
  unfold suppresses in Htest. cbn [Fge Ffloat ieee_ops] in Htest.
  rewrite Hovr, SFleb_refl in Htest; done.
Qed.

(** The format holds the number 1. *)
Hypothesis one_finite : ∃ m e, SFone prec emax = S754_finite false m e.

(** X8: in every IEEE format that holds 1, the overlap of two boxes does not
    depend on which of them is the reference box, NaN coordinates included;
    so no kept box has [ovr >= threshold] against another kept box,
    whichever of the two is ranked first. *)
Theorem overlap_is_symmetric dets scores threshold :
  well_formed_call sort_descending dets scores →
  (∀ bi bj : Box spec_float, ovr bi bj = ovr bj bi) ∧
  ∃ keep,
    nms_cpu_kernel sort_descending dets scores threshold = Ok keep ∧
    ∀ i j bi bj,
      i ∈ keep → j ∈ keep → i ≠ j →
      data dets !! i = Some bi → data dets !! j = Some bj →
      Fge (ovr bi bj) (of_float threshold) = false.
Proof.
  intros Hwf. split; [apply (ovr_comm_all prec emax of_float one_finite)|].
  eexists. split; [by apply nms_cpu_kernel_refines|].
  pose proof Hwf as [_ _ _ Hlen Hp]. rewrite <- Hlen in Hp.
  intros i j bi bj Hi Hj Hne Hbi Hbj.
  destruct (kept_pair _ _ Hp _ i j Hi Hj Hne) as [Hfalse|Hfalse];
    unfold overlap_test in Hfalse; rewrite Hbi, Hbj in Hfalse; [done|].
  by rewrite (ovr_comm_all prec emax of_float one_finite).
Qed.

End ieee_nan.

Lemma box_with_nan_area_is_kept_witness :
  ∃ keep,
    nms_cpu_kernel_float sort_float (float_tensor scenario_with_nan)
      (float_tensor (scenario_scores Q2F32)) half = Ok keep ∧
    1 ∈ keep.
Proof.
  destruct (box_with_nan_area_is_kept 24 128 (λ x, x) sort_float
              (float_tensor scenario_with_nan)
              (float_tensor (scenario_scores Q2F32)) half 1
              (Build_Box S754_nan (Z2F32 1) (Z2F32 11) (Z2F32 11)))
    as (_ & _ & Hkeep).
  - split; [reflexivity..|]. apply insertion_argsort_Permutation.
  - reflexivity.
  - left. left. reflexivity.
  - exact Hkeep.
Defined.

(** X9: with a NaN threshold [nms_cpu] keeps every box, on [float] and on
    [double] tensors: no overlap is [>=] NaN. *)
Theorem nms_cpu_nan_threshold sort_descending dets scores :
  well_formed_call sort_descending dets scores →
  is_floating (scalar_type (type dets)) = true →
  nms_cpu sort_descending dets scores S754_nan
  = Ok (seq 0 (length (data dets))).
Proof.
  intros Hwf Hfl. rewrite nms_cpu_dispatch by done.
  destruct (scalar_type (type dets)); try done.
  - by apply (nms_cpu_kernel_nan_threshold 24 128 (λ x, x)).
  - by apply (nms_cpu_kernel_nan_threshold 53 1024
                (λ x, SFldexp 53 1024 x 0)).
Qed.

Lemma nms_cpu_nan_threshold_witness :
  nms_cpu sort_float (float_tensor (scenario_boxes Z2F32))
    (float_tensor (scenario_scores Q2F32)) S754_nan = Ok [0; 1; 2].
Proof.
  exact (nms_cpu_nan_threshold sort_float
           (float_tensor (scenario_boxes Z2F32))
           (float_tensor (scenario_scores Q2F32))
           scenario_float_well_formed eq_refl).
Defined.


Lemma overlap_is_symmetric_witness :
  (∀ bi bj : Box spec_float,
     @ovr spec_float binary32_ops bi bj = @ovr spec_float binary32_ops bj bi) ∧
  ∃ keep,
    nms_cpu_kernel_float sort_float (float_tensor (scenario_boxes Z2F32))
      (float_tensor (scenario_scores Q2F32)) half = Ok keep ∧
    ∀ i j bi bj,
      i ∈ keep → j ∈ keep → i ≠ j →
      scenario_boxes Z2F32 !! i = Some bi →
      scenario_boxes Z2F32 !! j = Some bj →
      SFleb half (@ovr spec_float binary32_ops bi bj) = false.
Proof.
  exact (overlap_is_symmetric 24 128 (λ x, x) sort_float
           (ex_intro _ _ (ex_intro _ _ eq_refl))
           (float_tensor (scenario_boxes Z2F32))
           (float_tensor (scenario_scores Q2F32)) half
           scenario_float_well_formed).
Defined.

Lemma overlap_equal_to_threshold_suppresses_witness :
  ∃ keep,
    nms_cpu_kernel_float sort_float (float_tensor (scenario_boxes Z2F32))
      (float_tensor (scenario_scores Q2F32))
      (@ovr spec_float binary32_ops (box_of Z2F32 0 0 10 10)
         (box_of Z2F32 1 1 11 11)) = Ok keep ∧
    (0 ∈ keep → 1 ∉ keep).
Proof.
  refine (overlap_equal_to_threshold_suppresses 24 128 (λ x, x) sort_float
            (float_tensor (scenario_boxes Z2F32))
            (float_tensor (scenario_scores Q2F32))
            (@ovr spec_float binary32_ops (box_of Z2F32 0 0 10 10)
               (box_of Z2F32 1 1 11 11))
            [2; 0] 1 [] 0 (box_of Z2F32 0 0 10 10) (box_of Z2F32 1 1 11 11)
            scenario_float_well_formed _ _ eq_refl eq_refl eq_refl _).
  - vm_compute. reflexivity.
  - apply list_elem_of_In. right. left. reflexivity.
  - vm_compute. reflexivity.
Defined.

(** ** The ranking decides *)

(** Two orders, the second a selection of the first under a renaming [f] of
    the indices, with tests that agree: where no unflagged index that is
    left out passes the test against a selected index after it, the
    selected indices end flagged in the one marking exactly when they do in
    the other. *)
Section greedy_sublist.
Variables (test test' : nat → nat → bool) (order order' : list nat).
Variable f : nat → nat.
Hypothesis order_NoDup : NoDup order.
Hypothesis order'_NoDup : NoDup order'.
Hypothesis order'_ranked : f <$> order' `sublist_of` order.
Hypothesis tests_agree :
  ∀ a b, a ∈ order' → b ∈ order' → test' a b = test (f a) (f b).
Hypothesis left_out :
  ∀ pre j post i,
    order = pre ++ j :: post → i ∈ pre →
    i ∉ f <$> order' → j ∈ f <$> order' →
    (i ∉ greedy test order ∅) → test i j = false.

Lemma greedy_sublist_position m pre' a post' :
  length pre' < m → order' = pre' ++ a :: post' →
  a ∈ greedy test' order' ∅ ↔ f a ∈ greedy test order ∅.
Proof.
  revert pre' a post'. induction m as [|m IH]; intros pre' a post' Hm Heq.
  { lia. }
  pose proof order'_ranked as Hsub. rewrite Heq, fmap_app, fmap_cons in Hsub.
  apply sublist_app_cons_l in Hsub as (k1 & k2 & Hk & Hsub1 & Hsub2).
  rewrite (greedy_flagged test' order' ∅ pre' a post' order'_NoDup Heq).
  rewrite (greedy_flagged test order ∅ k1 (f a) k2 order_NoDup Hk).
  assert (∀ b, b ∈ pre' →
            b ∈ greedy test' order' ∅ ↔ f b ∈ greedy test order ∅) as Hpre.
  { intros b (p1 & p2 & ->)%list_elem_of_split.
    apply (IH p1 b (p2 ++ a :: post')).
    - rewrite length_app in Hm. simpl in Hm. lia.
    - by rewrite Heq, <- app_assoc. }
  split.
  - intros [?|(b & Hb & Hkept & Ht)]; [set_solver|]. right.
    exists (f b). split_and!.
    + eapply elem_of_sublist; [|exact Hsub1]. set_solver.
    + by rewrite <- Hpre.
    + rewrite <- tests_agree; [done|rewrite Heq; set_solver..].
  - intros [?|(i & Hi & Hkept & Ht)]; [set_solver|]. right.
    destruct (decide (i ∈ f <$> order')) as [Hin|Hout].
    + apply list_elem_of_fmap in Hin as (b & -> & Hb).
      assert (b ∈ pre') as Hb'.
      { rewrite Heq in Hb. apply elem_of_app in Hb as [?|Hb]; [done|].
        exfalso. rewrite Hk in order_NoDup.
        apply NoDup_app in order_NoDup as (_ & Hdisj & _).
        apply (Hdisj (f b) Hi).
        apply elem_of_cons in Hb as [->|Hb]; [set_solver|].
        apply elem_of_cons. right.
        eapply elem_of_sublist; [|exact Hsub2]. set_solver. }
      exists b. split_and!; [done|by rewrite Hpre|].
      rewrite tests_agree; [done|rewrite Heq; set_solver..].
    + rewrite (left_out k1 (f a) k2 i) in Ht; [done..| |done].
      rewrite Heq. set_solver.
Qed.

Lemma greedy_sublist a :
  a ∈ order' → a ∈ greedy test' order' ∅ ↔ f a ∈ greedy test order ∅.
Proof.
  intros (pre' & post' & Heq)%list_elem_of_split.
  apply (greedy_sublist_position (S (length pre')) pre' a post'); [lia|done].
Qed.

End greedy_sublist.

Lemma filter_Forall_not {A} (P : A → Prop) `{∀ x, Decision (P x)} l :
  Forall (λ x, ¬ P x) l → filter P l = [].
Proof.
  induction 1 as [|x l Hx _ IH]; [done|].
  by rewrite filter_cons_False.
Qed.

Lemma filter_iff_elem_of {A} (P Q : A → Prop) `{∀ x, Decision (P x)}
    `{∀ x, Decision (Q x)} (l : list A) :
  (∀ x, x ∈ l → P x ↔ Q x) → filter P l = filter Q l.
Proof.
  induction l as [|x l IH]; intros Hext; [done|].
  rewrite !filter_cons, IH by (intros y Hy; apply Hext; set_solver).
  destruct (decide (P x)) as [HP|HP], (decide (Q x)) as [HQ|HQ]; try done;
    exfalso; apply (Hext x) in HP || apply (Hext x) in HQ; set_solver.
Qed.

Lemma NoDup_split_unique {A} (l1 l2 k1 k2 : list A) x :
  NoDup (l1 ++ x :: l2) → l1 ++ x :: l2 = k1 ++ x :: k2 → l1 = k1.
Proof.
  revert k1. induction l1 as [|a l1 IH]; intros k1 Hnd Heq.
  - destruct k1 as [|b k1]; [done|]. simplify_eq/=.
    apply NoDup_cons in Hnd as [Hx _]. set_solver.
  - destruct k1 as [|b k1]; simplify_eq/=.
    + apply NoDup_cons in Hnd as [Hx _]. set_solver.
    + f_equal. apply NoDup_cons in Hnd as [_ Hnd]. by apply IH.
Qed.

Lemma index_select_lookup {A} (l : list A) (sel : list nat) a i :
  Forall (λ i, i < length l) sel → sel !! a = Some i →
  omap (λ i, l !! i) sel !! a = l !! i.
Proof.
  intros Hsel Ha.
  destruct (lookup_lt_is_Some_2 l i) as [x Hx].
  { by eapply (Forall_lookup_1 _ _ _ _ Hsel). }
  rewrite Hx. apply omap_lookup_lookup; eauto.
Qed.

Section ranking.
Context {F : Type} `{Scalar F}.
Variable sort_descending : list F → list nat.

(** X10: boxes appended to the input and ranked after all the others do not
    change which of the others are kept: the result of the longer call,
    restricted to the indices of the shorter one, is the result of the
    shorter call. *)
Theorem boxes_ranked_last_change_nothing
    dets scores dets' scores' threshold more tail :
  well_formed_call sort_descending dets scores →
  well_formed_call sort_descending dets' scores' →
  data dets' = data dets ++ more →
  sort_descending (data scores') = sort_descending (data scores) ++ tail →
  ∃ keep keep',
    nms_cpu_kernel sort_descending dets scores threshold = Ok keep ∧
    nms_cpu_kernel sort_descending dets' scores' threshold = Ok keep' ∧
    filter (λ i, i < length (data dets)) keep' = keep.
Proof.
  intros Hwf Hwf' Hdets Horder.
  exists (spec_suppress (sort_descending (data scores)) (data dets)
            (Ffloat threshold)),
         (spec_suppress (sort_descending (data scores')) (data dets')
            (Ffloat threshold)).
  split; [by apply nms_cpu_kernel_refines|].
  split; [by apply nms_cpu_kernel_refines|].
  destruct Hwf as [_ _ _ Hlen Hp]. rewrite <- Hlen in Hp.
  destruct Hwf' as [_ _ _ Hlen' Hp']. rewrite <- Hlen' in Hp'.
  destruct (index_permutation_facts _ _ Hp) as (_ & _ & Hnd & Hin).
  destruct (index_permutation_facts _ _ Hp') as (_ & _ & Hnd' & _).
  rewrite Horder, Hdets in *.
  set (order := sort_descending (data scores)) in *.
  set (boxes := data dets) in *.
  unfold spec_suppress. rewrite length_app, seq_app, filter_app.
  rewrite filter_app, (filter_Forall_not _ (filter _ (seq _ (length more)))).
  2:{ apply Forall_forall. intros i [_ Hi%elem_of_seq]%list_elem_of_filter.
      lia. }
  rewrite app_nil_r, list_filter_filter.
  apply filter_iff_elem_of. intros i Hi%elem_of_seq.
  assert (i ∈ greedy (overlap_test boxes (Ffloat threshold)) order ∅ ↔
          id i ∈ greedy (overlap_test (boxes ++ more) (Ffloat threshold))
                   (order ++ tail) ∅) as Hsame.
  { apply greedy_sublist; [done..| | | |].
    - rewrite list_fmap_id. by apply sublist_inserts_r.
    - intros a b Ha%Hin Hb%Hin. unfold overlap_test.
      by rewrite !lookup_app_l.
    - intros pre j post x Hsplit Hx Hout Hj. exfalso.
      rewrite list_fmap_id in Hout, Hj.
      apply list_elem_of_split in Hj as (p1 & p2 & Hj).
      assert (pre = p1) as ->.
      { symmetry. apply (NoDup_split_unique p1 (p2 ++ tail) pre post j).
        - by rewrite app_comm_cons, app_assoc, <- Hj.
        - by rewrite <- Hsplit, Hj, <- app_assoc. }
      apply Hout. rewrite Hj. set_solver.
    - apply Hin. lia. }
  simpl in Hsame. rewrite Hsame.
  split; [by intros []|]. intros ?. split; [lia|done].
Qed.

(** X11: a second call on some of the rows, [sel] naming them, with [sort]
    ranking them as the first call did: where every row that the first call
    keeps is among them, the second call keeps of its rows exactly those
    that the first call keeps. Rows that end flagged can be left out, and
    the rows can be put in another order. *)
Theorem flagged_rows_can_be_left_out dets scores threshold sel :
  well_formed_call sort_descending dets scores →
  Forall (λ i, i < length (data dets)) sel →
  sort_descending (data (index_select scores sel)) ≡ₚ seq 0 (length sel) →
  (λ a, sel !!! a) <$> sort_descending (data (index_select scores sel))
    `sublist_of` sort_descending (data scores) →
  ∃ keep keep',
    nms_cpu_kernel sort_descending dets scores threshold = Ok keep ∧
    nms_cpu_kernel sort_descending (index_select dets sel)
      (index_select scores sel) threshold = Ok keep' ∧
    ((∀ i, i ∈ keep → i ∈ sel) →
     ∀ a i, sel !! a = Some i → a ∈ keep' ↔ i ∈ keep).
Proof.
  intros Hwf Hsel Hp' Hsub. pose proof Hwf as [Hd Hs Ht Hlen Hp].
  rewrite <- Hlen in Hp.
  assert (length (data (index_select dets sel)) = length sel) as Hlen1.
  { by apply omap_lookup_length. }
  assert (length (data (index_select scores sel)) = length sel) as Hlen2.
  { apply omap_lookup_length. by rewrite <- Hlen. }
  exists (spec_suppress (sort_descending (data scores)) (data dets)
            (Ffloat threshold)),
         (spec_suppress (sort_descending (data (index_select scores sel)))
            (data (index_select dets sel)) (Ffloat threshold)).
  split; [by apply nms_cpu_kernel_refines|]. split.
  { apply nms_cpu_kernel_refines.
    split; simpl type; [done..|congruence|by rewrite Hlen2]. }
  set (order := sort_descending (data scores)) in *.
  set (order' := sort_descending (data (index_select scores sel))) in *.
  set (boxes := data dets) in *.
  set (boxes' := data (index_select dets sel)) in *.
  destruct (index_permutation_facts _ _ Hp) as (_ & _ & Hnd & Hin).
  destruct (index_permutation_facts _ _ Hp') as (_ & _ & Hnd' & Hin').
  intros Hkept a i Ha.
  assert (a < length sel) as Halt by (by eapply lookup_lt_Some).
  assert (i < length boxes) as Hilt.
  { by eapply (Forall_lookup_1 _ _ _ _ Hsel). }
  rewrite !elem_of_spec_suppress, Hlen1.
  assert (a ∈ greedy (overlap_test boxes' (Ffloat threshold)) order' ∅ ↔
          (λ a, sel !!! a) a
            ∈ greedy (overlap_test boxes (Ffloat threshold)) order ∅)
    as Hsame.
  { apply (greedy_sublist (overlap_test boxes (Ffloat threshold))
             (overlap_test boxes' (Ffloat threshold)) order order'
             (λ a, sel !!! a)); [done..| | |by apply Hin'].
    - intros x y Hx%Hin' Hy%Hin'.
      destruct (lookup_lt_is_Some_2 sel x Hx) as [ix Hix].
      destruct (lookup_lt_is_Some_2 sel y Hy) as [iy Hiy].
      unfold overlap_test.
      change boxes' with (omap (λ i, boxes !! i) sel).
      rewrite (index_select_lookup _ _ _ _ Hsel Hix).
      rewrite (index_select_lookup _ _ _ _ Hsel Hiy).
      by rewrite (list_lookup_total_correct _ _ _ Hix),
        (list_lookup_total_correct _ _ _ Hiy).
    - intros pre j post x Hsplit Hx Hout _ Hx'. exfalso. apply Hout.
      assert (x ∈ sel) as (b & Hb)%list_elem_of_lookup_1.
      { apply Hkept, elem_of_spec_suppress. split; [|done].
        apply Hin. rewrite Hsplit. set_solver. }
      apply list_elem_of_fmap. exists b.
      split; [by rewrite (list_lookup_total_correct _ _ _ Hb)|].
      apply Hin'. by eapply lookup_lt_Some. }
  simpl in Hsame. rewrite (list_lookup_total_correct _ _ _ Ha) in Hsame.
  rewrite Hsame. split; intros [? ?]; split; (done || lia).
Qed.

Lemma kept_rule_position boxes order threshold (chosen : gset nat)
    m pre j post :
  order ≡ₚ seq 0 (length boxes) →
  (∀ pre j post,
     order = pre ++ j :: post →
     j ∈ chosen ↔
     ∀ i, i ∈ pre → i ∈ chosen → overlap_test boxes threshold i j = false) →
  length pre < m → order = pre ++ j :: post →
  j ∈ chosen ↔ j ∈ spec_suppress order boxes threshold.
Proof.
  intros Hp Hrule. revert pre j post.
  induction m as [|m IH]; intros pre j post Hm Hsplit; [lia|].
  rewrite (Hrule pre j post Hsplit).
  rewrite (spec_suppress_kept boxes order threshold Hp pre j post Hsplit).
  assert (∀ i, i ∈ pre →
               i ∈ chosen ↔ i ∈ spec_suppress order boxes threshold)
    as Hpre.
  { intros i (p1 & p2 & ->)%list_elem_of_split.
    apply (IH p1 i (p2 ++ j :: post)).
    - rewrite length_app in Hm. simpl in Hm. lia.
    - by rewrite Hsplit, <- app_assoc. }
  split; intros Hall i Hi Hkept; apply Hall; try done; by apply Hpre.
Qed.

(** X12: the rule decides the result. A set of indices in which every index
    lies exactly when no index of the set ranked before it has
    [ovr >= threshold] against it holds the same indices below N as the
    kernel's result. *)
Theorem kept_set_is_the_only_one dets scores threshold (chosen : gset nat) :
  well_formed_call sort_descending dets scores →
  (∀ pre j post,
     sort_descending (data scores) = pre ++ j :: post →
     j ∈ chosen ↔
     ∀ i, i ∈ pre → i ∈ chosen →
          overlap_test (data dets) (Ffloat threshold) i j = false) →
  ∃ keep,
    nms_cpu_kernel sort_descending dets scores threshold = Ok keep ∧
    ∀ j, j < length (data dets) → j ∈ chosen ↔ j ∈ keep.
Proof.
  intros Hwf Hrule. eexists. split; [by apply nms_cpu_kernel_refines|].
  pose proof Hwf as [_ _ _ Hlen Hp]. rewrite <- Hlen in Hp.
  intros j Hj.
  destruct (order_elem _ _ Hp j Hj) as (pre & post & Hsplit).
  apply (kept_rule_position _ _ _ chosen (S (length pre)) pre j post);
    [done..|lia|done].
Qed.

(** X13: the two ends. The kernel keeps every box exactly when no box has
    [ovr >= threshold] against a box ranked after it, and keeps a single
    box exactly when the first box of the order has [ovr >= threshold]
    against every other box. *)
Theorem every_box_or_a_single_box_is_kept dets scores threshold :
  well_formed_call sort_descending dets scores →
  ∃ keep,
    nms_cpu_kernel sort_descending dets scores threshold = Ok keep ∧
    (length keep = length (data dets) ↔
     ∀ pre j post i,
       sort_descending (data scores) = pre ++ j :: post → i ∈ pre →
       overlap_test (data dets) (Ffloat threshold) i j = false) ∧
    (∀ top rest,
       sort_descending (data scores) = top :: rest →
       length keep = 1 ↔
       ∀ j, j ≠ top → j < length (data dets) →
            overlap_test (data dets) (Ffloat threshold) top j = true).
Proof.
  intros Hwf. eexists. split; [by apply nms_cpu_kernel_refines|].
  pose proof Hwf as [_ _ _ Hlen Hp]. rewrite <- Hlen in Hp.
  split.
  - split.
    + intros Hall pre j post i. by apply kept_all_tests.
    + intros Htest. rewrite (kept_all _ _ Hp); [|done].
      by rewrite length_seq.
  - intros top rest Horder. split.
    + intros Hone. by apply (kept_one_top_tests _ _ Hp _ top rest).
    + intros Htest. by rewrite (kept_only_top _ _ Hp _ top rest).
Qed.

(** X14: with one box the result is [0], whatever the threshold. With two
    boxes the second of the order is dropped exactly when its overlap with
    the first, the first being the reference box, is [>=] the threshold. *)
Theorem one_box_and_two_boxes dets scores threshold :
  well_formed_call sort_descending dets scores →
  (length (data dets) = 1 →
   nms_cpu_kernel sort_descending dets scores threshold = Ok [0]) ∧
  (∀ top other b_top b_other,
     sort_descending (data scores) = [top; other] →
     data dets !! top = Some b_top → data dets !! other = Some b_other →
     nms_cpu_kernel sort_descending dets scores threshold
     = Ok (if Fge (ovr b_top b_other) (Ffloat threshold) then [top]
           else [0; 1])).
Proof.
  intros Hwf. pose proof Hwf as [_ _ _ Hlen Hp]. rewrite <- Hlen in Hp.
  rewrite nms_cpu_kernel_refines by done. split.
  - intros Hone. f_equal.
    assert (sort_descending (data scores) = [0]) as Horder.
    { apply Permutation_singleton_r. by rewrite Hp, Hone. }
    apply (kept_only_top (data dets) _ Hp _ 0 [] Horder). intros j ? ?. lia.
  - intros top other b_top b_other Horder Htop Hother. f_equal.
    assert (length (data dets) = 2) as Htwo.
    { apply Permutation_length in Hp. rewrite Horder, length_seq in Hp.
      done. }
    destruct (index_permutation_facts _ _ Hp) as (_ & _ & Hnd & Hin).
    destruct (Fge (ovr b_top b_other) (Ffloat threshold)) eqn:Hge.
    + apply (kept_only_top (data dets) _ Hp _ top [other] Horder).
      intros j Hne Hj%Hin. rewrite Horder in Hj.
      assert (j = other) as -> by set_solver.
      unfold overlap_test. by rewrite Htop, Hother.
    + rewrite (kept_all (data dets) _ Hp); [by rewrite Htwo|].
      intros pre j post i Hsplit Hi. rewrite Horder in Hsplit.
      destruct pre as [|a [|b pre]]; simplify_eq/=.
      * by apply elem_of_nil in Hi.
      * apply list_elem_of_singleton in Hi as ->.
        unfold overlap_test. by rewrite Htop, Hother.
      * by destruct pre.
Qed.

End ranking.

Lemma scenario_with_D_well_formed :
  well_formed_call sort_float (float_tensor scenario_with_D)
    (float_tensor scenario_scores_with_D).
Proof.
  split; [reflexivity..|]. apply insertion_argsort_Permutation.
Qed.

Lemma boxes_ranked_last_change_nothing_witness :
  ∃ keep keep',
    nms_cpu_kernel_float sort_float (float_tensor (scenario_boxes Z2F32))
      (float_tensor (scenario_scores Q2F32)) half = Ok keep ∧
    nms_cpu_kernel_float sort_float (float_tensor scenario_with_D)
      (float_tensor scenario_scores_with_D) half = Ok keep' ∧
    filter (λ i, i < 3) keep' = keep.
Proof.
  refine (@boxes_ranked_last_change_nothing spec_float binary32_ops sort_float
            (float_tensor (scenario_boxes Z2F32))
            (float_tensor (scenario_scores Q2F32))
            (float_tensor scenario_with_D)
            (float_tensor scenario_scores_with_D) half
            [box_of Z2F32 100 100 110 110] [3]
            scenario_float_well_formed scenario_with_D_well_formed
            eq_refl _).
  vm_compute. reflexivity.
Defined.

Lemma flagged_rows_can_be_left_out_witness :
  ∃ keep keep',
    nms_cpu_kernel_float sort_float (float_tensor (scenario_boxes Z2F32))
      (float_tensor (scenario_scores Q2F32)) half = Ok keep ∧
    nms_cpu_kernel_float sort_float
      (index_select (float_tensor (scenario_boxes Z2F32)) [0; 2])
      (index_select (float_tensor (scenario_scores Q2F32)) [0; 2]) half
    = Ok keep' ∧
    ∀ a i, [0; 2] !! a = Some i → a ∈ keep' ↔ i ∈ keep.
Proof.
  destruct (@flagged_rows_can_be_left_out spec_float binary32_ops sort_float
              (float_tensor (scenario_boxes Z2F32))
              (float_tensor (scenario_scores Q2F32)) half [0; 2]
              scenario_float_well_formed)
    as (keep & keep' & Hrun & Hrun' & Hsame).
  - repeat constructor.
  - apply (bool_decide_unpack _). vm_compute. reflexivity.
  - vm_compute. repeat constructor.
  - exists keep, keep'. split; [exact Hrun|]. split; [exact Hrun'|].
    apply Hsame.
    assert (nms_cpu_kernel_float sort_float
              (float_tensor (scenario_boxes Z2F32))
              (float_tensor (scenario_scores Q2F32)) half = Ok [0; 2])
      as Hkeep.
    { vm_compute. reflexivity. }
    unfold nms_cpu_kernel_float in Hkeep.
    rewrite Hkeep in Hrun. injection Hrun as <-. done.
Defined.

Lemma kept_set_is_the_only_one_witness :
  ∃ keep,
    nms_cpu_kernel_float sort_float (float_tensor (scenario_boxes Z2F32))
      (float_tensor (scenario_scores Q2F32)) half = Ok keep ∧
    ∀ j, j < 3 → j ∈ ({[0; 2]} : gset nat) ↔ j ∈ keep.
Proof.
  refine (@kept_set_is_the_only_one spec_float binary32_ops sort_float
            (float_tensor (scenario_boxes Z2F32))
            (float_tensor (scenario_scores Q2F32)) half {[0; 2]}
            scenario_float_well_formed _).
  intros pre j post Hsplit.
  change (sort_float (data (float_tensor (scenario_scores Q2F32))))
    with (sort_float (scenario_scores Q2F32)) in Hsplit.
  assert (sort_float (scenario_scores Q2F32) = [2; 0; 1]) as Horder.
  { vm_compute. reflexivity. }
  rewrite Horder in Hsplit.
  clear Horder. destruct pre as [|a [|b [|c pre]]]; simpl in Hsplit.
  - injection Hsplit as Hj _. subst j.
    split; [intros _ i Hi; by apply elem_of_nil in Hi|intros _].
    apply elem_of_union_r, elem_of_singleton. reflexivity.
  - injection Hsplit as Ha Hj _. subst a j.
    split; [|intros _; apply elem_of_union_l, elem_of_singleton; reflexivity].
    intros _ i Hi%list_elem_of_singleton _. rewrite Hi.
    vm_compute. reflexivity.
  - injection Hsplit as Ha Hb Hj _. subst a b j. split.
    + intros [Hj%elem_of_singleton|Hj%elem_of_singleton]%elem_of_union;
        discriminate Hj.
    + intros Hall. exfalso.
      assert (@overlap_test spec_float binary32_ops
                (scenario_boxes Z2F32) half 0 1 = false) as Habs.
      { apply Hall.
        - apply list_elem_of_In. right. left. reflexivity.
        - apply elem_of_union_l, elem_of_singleton. reflexivity. }
      vm_compute in Habs. discriminate Habs.
  - injection Hsplit as _ _ _ Hrest. destruct pre; discriminate Hrest.
Defined.

Lemma every_box_or_a_single_box_is_kept_witness :
  ∃ keep,
    nms_cpu_kernel_float sort_float (float_tensor (scenario_boxes Z2F32))
      (float_tensor (scenario_scores Q2F32)) half = Ok keep ∧
    (length keep = 3 ↔
     ∀ pre j post i,
       sort_float (scenario_scores Q2F32) = pre ++ j :: post → i ∈ pre →
       @overlap_test spec_float binary32_ops (scenario_boxes Z2F32) half i j
       = false) ∧
    (∀ top rest,
       sort_float (scenario_scores Q2F32) = top :: rest →
       length keep = 1 ↔
       ∀ j, j ≠ top → j < 3 →
            @overlap_test spec_float binary32_ops (scenario_boxes Z2F32) half
              top j = true).
Proof.
  exact (@every_box_or_a_single_box_is_kept spec_float binary32_ops sort_float
           (float_tensor (scenario_boxes Z2F32))
           (float_tensor (scenario_scores Q2F32)) half
           scenario_float_well_formed).
Defined.

Lemma one_box_and_two_boxes_witness :
  nms_cpu_kernel_float sort_float (float_tensor [box_of Z2F32 0 0 10 10])
    (float_tensor [Q2F32 9 10]) half = Ok [0] ∧
  nms_cpu_kernel_float sort_float
    (float_tensor [box_of Z2F32 0 0 10 10; box_of Z2F32 1 1 11 11])
    (float_tensor [Q2F32 9 10; Q2F32 8 10]) half = Ok [0].
Proof.
  split.
  - refine (proj1 (@one_box_and_two_boxes spec_float binary32_ops sort_float
                     (float_tensor [box_of Z2F32 0 0 10 10])
                     (float_tensor [Q2F32 9 10]) half _) eq_refl).
    split; [reflexivity..|]. apply insertion_argsort_Permutation.
  - pose proof (@one_box_and_two_boxes spec_float binary32_ops sort_float
                  (float_tensor
                     [box_of Z2F32 0 0 10 10; box_of Z2F32 1 1 11 11])
                  (float_tensor [Q2F32 9 10; Q2F32 8 10]) half) as Htwo.
    destruct Htwo as [_ Htwo].
    { split; [reflexivity..|]. apply insertion_argsort_Permutation. }
    etransitivity.
    + apply (Htwo 0 1 (box_of Z2F32 0 0 10 10) (box_of Z2F32 1 1 11 11));
        [vm_compute; reflexivity|reflexivity..].
    + vm_compute. reflexivity.
Defined.
